(** * sondra-client: request contexts and resilient calls

    A shallow embedding of [src/sondra.js] (class [QuerySet], the
    [DefaultContext] record and class [Sondra]) and of [thread] from
    [src/functools.js].

    Conventions of the embedding.
    - Immutable [OrderedMap]s and plain JS objects used as option bags are
      association lists in insertion order ([omap]).  Keys are option names,
      i.e. identifiers: the reordering JavaScript applies to integer-like
      keys of plain objects is outside the model.
    - Values that only travel through the client (bodies, query operands,
      response payloads) are [json] trees; [JText j] stands for the string
      [JSON.stringify(j)].
    - A selector ([app], [collection], [document], [method]) is [null] or a
      name, i.e. [option string]; the JavaScript test [if (app)] is [truthy].
    - The module-level counter [nextDeferredRequestId] is threaded explicitly.
    - The transport and the connectivity signal are an oracle: the outcomes
      of the successive probes and of the successive physical requests. *)

From Stdlib Require Import String Ascii List ZArith Bool Lia.
Import ListNotations.

Set Warnings "-register-all".

Local Open Scope string_scope.
Local Open Scope Z_scope.

(** ** Values *)

Inductive json : Type :=
| JNull
| JBool (b : bool)
| JNum (z : Z)
| JStr (s : string)
| JArr (l : list json)
| JObj (o : list (string * json))
| JText (j : json).

(** Insertion-ordered maps with string keys. *)
Definition omap (V : Type) : Type := list (string * V).

Section OMap.
Context {V : Type}.

Fixpoint omap_get (k : string) (m : omap V) : option V :=
    match m with
    | [] => None
    | (k', v) :: m' => if (k' =? k)%string then Some v else omap_get k m'
    end.

Definition omap_has (k : string) (m : omap V) : bool :=
    match omap_get k m with Some _ => true | None => false end.

  (** [m.set(k, v)]: an existing key keeps its position, a new key goes last. *)
Fixpoint omap_set (k : string) (v : V) (m : omap V) : omap V :=
    match m with
    | [] => [(k, v)]
    | (k', v') :: m' =>
        if (k' =? k)%string then (k, v) :: m' else (k', v') :: omap_set k v m'
    end.

  (** [m.merge(o)], [_.extend({}, m, o)], [_.assign({}, m, o)]. *)
Definition omap_merge (m o : omap V) : omap V :=
    fold_left (fun acc kv => omap_set (fst kv) (snd kv) acc) o m.
End OMap.

(** [thread(initial, partial)] of functools.js, at the one arity the client
    uses: the reduction over a single partial is its application. *)
Definition thread {A B : Type} (initial : A) (partial : A -> B) : B :=
  partial initial.

(** [_.escape]: the HTML entities of ampersand, angle brackets and quotes. *)
Definition dquote : ascii := ascii_of_nat 34.

Definition escape_char (c : ascii) : string :=
  if Ascii.eqb c "&"%char then "&amp;"
  else if Ascii.eqb c "<"%char then "&lt;"
  else if Ascii.eqb c ">"%char then "&gt;"
  else if Ascii.eqb c dquote then "&quot;"
  else if Ascii.eqb c "'"%char then "&#39;"
  else String c EmptyString.

Fixpoint escape (s : string) : string :=
  match s with
  | EmptyString => EmptyString
  | String c s' => escape_char c ++ escape s'
  end.

(** [responseFormat(fmt)]: every option as [escape(k)=escape(v)], joined by
    semicolons. *)
Definition responseFormat (fmt : omap string) : string :=
  String.concat ";"
    (thread fmt (map (fun kv => escape (fst kv) ++ "=" ++ escape (snd kv)))).

(** ** QuerySet *)

Module QuerySet.
Record t : Type := mk { q : omap json }.

Definition initialQuery : omap json := [].
Definition new : t := mk initialQuery.

Definition start (x : json) (this : t) : t := mk (omap_set "start" x (q this)).
Definition end_ (x : json) (this : t) : t := mk (omap_set "end" x (q this)).
Definition limit (x : json) (this : t) : t := mk (omap_set "limit" x (q this)).
Definition count (this : t) : t :=
  mk (omap_set "agg" (JObj [("op", JStr "count")]) (q this)).

Definition jsonProps : list string := ["flt"; "agg"; "geo"; "keys"].
Definition bareProps : list string := ["index"; "start"; "limit"; "end"].

(** [value(cook)]: the cooked render serialises the composite slots and
    passes the scalar ones through; the uncooked render is [q.toJS()]. *)
Definition value (cook : bool) (this : t) : omap json :=
  if cook then
    let ret := [] in
    let ret :=
      fold_left (fun ret p =>
                   match omap_get p (q this) with
                   | Some v => omap_set p (JText v) ret
                   | None => ret
                   end) jsonProps ret in
    let ret :=
      fold_left (fun ret p =>
                   match omap_get p (q this) with
                   | Some v => omap_set p v ret
                   | None => ret
                   end) bareProps ret in
    ret
  else q this.

(** [toJSON()] *)
Definition toJSON (this : t) : omap json := q this.

(** JavaScript truthiness of a value, as in [if (index)]. *)
Definition js_truthy (j : json) : bool :=
  match j with
  | JNull => false
  | JBool b => b
  | JNum z => negb (z =? 0)
  | JStr s => negb (s =? "")%string
  | JArr _ | JObj _ | JText _ => true
  end.

(** [forKeys(keys, index = null)] *)
Definition forKeys (keys : list json) (index : json) (this : t) : t :=
  let q1 := omap_set "keys" (JArr keys) (q this) in
  let q1 := if js_truthy index then omap_set "index" index q1 else q1 in
  mk q1.

(** The common body of the filter methods: the list under [flt], or a new
    one, gets [op] pushed.  A slot that holds anything but a list has no
    [push]: the call throws, which is [None]. *)
Definition push_filter (op : json) (this : t) : option t :=
  match omap_get "flt" (q this) with
  | None => Some (mk (omap_set "flt" (JArr [op]) (q this)))
  | Some (JArr flt) =>
      Some (mk (omap_set "flt" (JArr (flt ++ [op])) (q this)))
  | Some _ => None
  end.

(** [Map({op, lhs, rhs, "default": dflt})] *)
Definition comparison (op : string) (lhs rhs dflt : json) : json :=
  JObj [("op", JStr op); ("lhs", lhs); ("rhs", rhs); ("default", dflt)].

Definition lt (lhs rhs dflt : json) (this : t) : option t :=
  push_filter (comparison "<" lhs rhs dflt) this.
Definition gt (lhs rhs dflt : json) (this : t) : option t :=
  push_filter (comparison ">" lhs rhs dflt) this.
Definition lte (lhs rhs dflt : json) (this : t) : option t :=
  push_filter (comparison "<=" lhs rhs dflt) this.
Definition gte (lhs rhs dflt : json) (this : t) : option t :=
  push_filter (comparison ">=" lhs rhs dflt) this.
Definition eq (lhs rhs dflt : json) (this : t) : option t :=
  push_filter (comparison "==" lhs rhs dflt) this.
Definition match_ (lhs rhs dflt : json) (this : t) : option t :=
  push_filter (comparison "match" lhs rhs dflt) this.
Definition contains (lhs rhs dflt : json) (this : t) : option t :=
  push_filter (comparison "contains" lhs rhs dflt) this.
Definition hasFields (fields : json) (this : t) : option t :=
  push_filter (JObj [("op", JStr "has_fields"); ("fields", fields)]) this.

(** [if (against) op = op.set('against', against)] *)
Definition with_against (against : json) (op : omap json) : omap json :=
  if js_truthy against then omap_set "against" against op else op.

Definition getIntersecting (geometry against : json) (this : t) : t :=
  let op := [("op", JStr "get_intersecting"); ("args", JArr [geometry])] in
  mk (omap_set "geo" (JObj (with_against against op)) (q this)).

Definition getNearest (point against max_results max_dist unit : json)
    (this : t) : t :=
  let op :=
    [("op", JStr "get_nearest"); ("args", JArr [point]);
     ("kwargs", JObj [("max_results", max_results); ("max_dist", max_dist);
                      ("unit", unit)])] in
  mk (omap_set "geo" (JObj (with_against against op)) (q this)).

Definition countValue (value : json) (this : t) : t :=
  mk (omap_set "agg" (JObj [("op", JStr "count"); ("args", JArr [value])])
               (q this)).
Definition sum (field : json) (this : t) : t :=
  mk (omap_set "agg" (JObj [("op", JStr "sum"); ("args", JArr [field])])
               (q this)).
Definition avg (field : json) (this : t) : t :=
  mk (omap_set "agg" (JObj [("op", JStr "avg"); ("args", JArr [field])])
               (q this)).
Definition min (field : json) (this : t) : t :=
  mk (omap_set "agg" (JObj [("op", JStr "min"); ("args", JArr [field])])
               (q this)).
Definition max (field : json) (this : t) : t :=
  mk (omap_set "agg" (JObj [("op", JStr "max"); ("args", JArr [field])])
               (q this)).
Definition pluck (fields : list json) (this : t) : t :=
  mk (omap_set "agg" (JObj [("op", JStr "pluck"); ("args", JArr fields)])
               (q this)).
Definition without (fields : list json) (this : t) : t :=
  mk (omap_set "agg" (JObj [("op", JStr "without"); ("args", JArr fields)])
               (q this)).
Definition distinct (index : json) (this : t) : t :=
  if js_truthy index then
    mk (omap_set "agg" (JObj [("op", JStr "distinct");
                              ("kwargs", JObj [("index", index)])]) (q this))
  else mk (omap_set "agg" (JObj [("op", JStr "distinct")]) (q this)).
Definition minInIndex (index : json) (this : t) : t :=
  mk (omap_set "agg" (JObj [("op", JStr "min");
                            ("kwargs", JObj [("index", index)])]) (q this)).
Definition maxInIndex (index : json) (this : t) : t :=
  mk (omap_set "agg" (JObj [("op", JStr "max");
                            ("kwargs", JObj [("index", index)])]) (q this)).
End QuerySet.

(** ** The context record *)

Record robust_cfg : Type := mkRobust {
  maxTries : Z;
  refetchDelay : Z;
  pingPath : string
}.

Definition REFETCH_MILLISEC : Z := 1500.
Definition DEFAULT_MAX_TRIES : Z := 10.
Definition DefaultBasePath : list string := ["api"].

Module DefaultContext.

(** The fields of [DefaultContext].  The [url] slot is typed as what the
    code can store in it: a string, or (after [suite]) a whole context;
    [record] is the shape, [t] ties the knot. *)
Record record (U : Type) : Type :=
  mk {
    protocol : string;
    host : string;
    port : string;
    mode : string;
    compress : bool;
    url : U;
    basePath : list string;
    headers : omap string;
    additionalRequestOptions : omap json;
    requestMethod : string;
    suite : json;
    app : option string;
    collection : option string;
    document : option string;
    method : option string;
    params : omap string;
    body : omap json;
    querySet : QuerySet.t;
    api : json;
    robust : robust_cfg
  }.

Inductive url_value : Type :=
  | UrlString (s : string)
  | UrlContext (c : record url_value).

Definition t : Type := record url_value.

Arguments mk {U}.
Arguments protocol {U}.
Arguments host {U}.
Arguments port {U}.
Arguments mode {U}.
Arguments compress {U}.
Arguments url {U}.
Arguments basePath {U}.
Arguments headers {U}.
Arguments additionalRequestOptions {U}.
Arguments requestMethod {U}.
Arguments suite {U}.
Arguments app {U}.
Arguments collection {U}.
Arguments document {U}.
Arguments method {U}.
Arguments params {U}.
Arguments body {U}.
Arguments querySet {U}.
Arguments api {U}.
Arguments robust {U}.

Definition defaults : t :=
  {| protocol := "https"; host := "localhost"; port := "443";
     mode := "cors"; compress := true; url := UrlString "";
     basePath := DefaultBasePath; headers := [];
     additionalRequestOptions := []; requestMethod := "GET";
     suite := JNull; app := None; collection := None; document := None;
     method := None; params := [("format", "json")]; body := [];
     querySet := QuerySet.new; api := JObj [];
     robust := mkRobust DEFAULT_MAX_TRIES REFETCH_MILLISEC "/ping" |}.

(** One key of an object literal handed to [merge] or [set]. *)
Inductive field_update : Type :=
  | SetProtocol (v : string)
  | SetHost (v : string)
  | SetPort (v : string)
  | SetMode (v : string)
  | SetCompress (v : bool)
  | SetUrl (v : url_value)
  | SetBasePath (v : list string)
  | SetHeaders (v : omap string)
  | SetAdditionalRequestOptions (v : omap json)
  | SetRequestMethod (v : string)
  | SetSuite (v : json)
  | SetApp (v : option string)
  | SetCollection (v : option string)
  | SetDocument (v : option string)
  | SetMethod (v : option string)
  | SetParams (v : omap string)
  | SetBody (v : omap json)
  | SetQuerySet (v : QuerySet.t)
  | SetApi (v : json)
  | SetRobust (v : robust_cfg).

Definition set (u : field_update) (c : t) : t :=
  let '(mk pr ho po mo co ur bp he ao rm su ap cl dc me pa bo qs ai rb) :=
    c in
  match u with
  | SetProtocol v =>
      mk v ho po mo co ur bp he ao rm su ap cl dc me pa bo qs ai rb
  | SetHost v =>
      mk pr v po mo co ur bp he ao rm su ap cl dc me pa bo qs ai rb
  | SetPort v =>
      mk pr ho v mo co ur bp he ao rm su ap cl dc me pa bo qs ai rb
  | SetMode v =>
      mk pr ho po v co ur bp he ao rm su ap cl dc me pa bo qs ai rb
  | SetCompress v =>
      mk pr ho po mo v ur bp he ao rm su ap cl dc me pa bo qs ai rb
  | SetUrl v =>
      mk pr ho po mo co v bp he ao rm su ap cl dc me pa bo qs ai rb
  | SetBasePath v =>
      mk pr ho po mo co ur v he ao rm su ap cl dc me pa bo qs ai rb
  | SetHeaders v =>
      mk pr ho po mo co ur bp v ao rm su ap cl dc me pa bo qs ai rb
  | SetAdditionalRequestOptions v =>
      mk pr ho po mo co ur bp he v rm su ap cl dc me pa bo qs ai rb
  | SetRequestMethod v =>
      mk pr ho po mo co ur bp he ao v su ap cl dc me pa bo qs ai rb
  | SetSuite v =>
      mk pr ho po mo co ur bp he ao rm v ap cl dc me pa bo qs ai rb
  | SetApp v =>
      mk pr ho po mo co ur bp he ao rm su v cl dc me pa bo qs ai rb
  | SetCollection v =>
      mk pr ho po mo co ur bp he ao rm su ap v dc me pa bo qs ai rb
  | SetDocument v =>
      mk pr ho po mo co ur bp he ao rm su ap cl v me pa bo qs ai rb
  | SetMethod v =>
      mk pr ho po mo co ur bp he ao rm su ap cl dc v pa bo qs ai rb
  | SetParams v =>
      mk pr ho po mo co ur bp he ao rm su ap cl dc me v bo qs ai rb
  | SetBody v =>
      mk pr ho po mo co ur bp he ao rm su ap cl dc me pa v qs ai rb
  | SetQuerySet v =>
      mk pr ho po mo co ur bp he ao rm su ap cl dc me pa bo v ai rb
  | SetApi v =>
      mk pr ho po mo co ur bp he ao rm su ap cl dc me pa bo qs v rb
  | SetRobust v =>
      mk pr ho po mo co ur bp he ao rm su ap cl dc me pa bo qs ai v
  end.

(** [this.merge({...})]: the keys are applied left to right. *)
Definition merge (c : t) (o : list field_update) : t :=
  fold_left (fun acc u => set u acc) o c.

End DefaultContext.

(** ** The transport, as the client sees it *)

(** A JavaScript error value; [err_status] is its [status] property, absent
    on the errors [fetch] and [rsp.json()] raise. *)
Record jserror : Type := mkError {
  err_message : string;
  err_status : option Z
}.

Definition not_online : jserror := mkError "not online" None.

(** What a promise can be rejected with in this client. *)
Inductive jsvalue : Type :=
| VJson (j : json)
| VError (e : jserror)
| VPair (status : Z) (v : jsvalue).

(** Outcome of one physical request: a response, with [rsp.status] and the
  settlement of [rsp.json()], or no response at all. *)
Inductive fetch_outcome : Type :=
| Response (status : Z) (parsed : json + jserror)
| NoResponse (e : jserror).

(** [rsp.ok] *)
Definition rsp_ok (status : Z) : bool := (200 <=? status) && (status <=? 299).

(** Outcome of [_isOnline()]: the environment reports no connectivity (no
  request is made), or the HEAD request to the ping path settles or fails. *)
Inductive probe_outcome : Type :=
| Offline
| PingSettled
| PingFailed (e : jserror).

(** Values of the options object handed to [fetch]. *)
Inductive optval : Type :=
| OStr (s : string)
| OBool (b : bool)
| ONull
| OBody (payload : omap json)
| OHeaders (h : omap string)
| OJson (j : json).

(** A request URL: the stored [url], and the fields form-encoded after a
    question mark when there are any. *)
Record request_url : Type := mkRequestUrl {
  ru_base : DefaultContext.url_value;
  ru_query : option (omap json)
}.

(** Settled promises and the two combinators the client chains them with. *)
Inductive settled (A : Type) : Type :=
| Fulfilled (a : A)
| Failed (reason : jsvalue).
Arguments Fulfilled {A}.
Arguments Failed {A}.

Definition then_ {A B : Type} (p : settled A) (f : A -> settled B)
  : settled B :=
  match p with
  | Fulfilled a => f a
  | Failed r => Failed r
  end.

Definition catch_ {A : Type} (p : settled A) (h : jsvalue -> settled A)
  : settled A :=
  match p with
  | Fulfilled a => Fulfilled a
  | Failed r => h r
  end.

Definition fetch_promise (o : fetch_outcome) : settled (Z * (json + jserror)) :=
  match o with
  | Response status parsed => Fulfilled (status, parsed)
  | NoResponse e => Failed (VError e)
  end.

Definition rsp_json (rsp : Z * (json + jserror)) : settled json :=
  match snd rsp with
  | inl j => Fulfilled j
  | inr e => Failed (VError e)
  end.

(** ** Class Sondra: the pure builders *)

(** JavaScript truthiness of a selector: [null] and the empty name are falsy. *)
Definition truthy (v : option string) : bool :=
  match v with
  | Some s => negb (s =? "")%string
  | None => false
  end.

(** A selector inside a template literal. *)
Definition template (v : option string) : string :=
  match v with
  | Some s => s
  | None => "null"
  end.

Module Sondra.
Module DC := DefaultContext.
Import DC (t, url_value, UrlString, UrlContext, field_update).

Definition new : t := DC.defaults.

Definition calculateUrl (this : t) : t :=
  let openingPath := String.concat "/" (DC.basePath this) in
  let url :=
    DC.protocol this ++ "://" ++ DC.host this ++ ":" ++ DC.port this
      ++ "/" ++ openingPath in
  let url :=
    if truthy (DC.app this) then url ++ "/" ++ template (DC.app this)
    else url in
  let url :=
    if truthy (DC.collection this)
    then url ++ "/" ++ template (DC.collection this) else url in
  let url :=
    if truthy (DC.document this)
    then url ++ "/" ++ template (DC.document this) else url in
  let url :=
    if truthy (DC.method this) then url ++ "." ++ template (DC.method this)
    else url in
  let url := url ++ ";" ++ responseFormat (DC.params this) in
  DC.set (DC.SetUrl (UrlString url)) this.

(** [suite(protocol, host, port, basePath)].  The [basePath] argument is
    accepted and not used; the value stored under [url] is what
    [calculateUrl] returns, a context. *)
Definition suite (protocol host port : string) (basePath : list string)
    (this : t) : t :=
  let s := DC.merge this [DC.SetProtocol protocol; DC.SetHost host;
                          DC.SetPort port] in
  DC.set (DC.SetUrl (UrlContext (calculateUrl s))) s.

Definition app (name : string) (this : t) : t :=
  calculateUrl
    (DC.merge this [DC.SetApp (Some name); DC.SetCollection None;
                    DC.SetDocument None; DC.SetMethod None; DC.SetBody []]).

Definition collection (name : string) (this : t) : t :=
  calculateUrl
    (DC.merge this [DC.SetCollection (Some name); DC.SetDocument None;
                    DC.SetMethod None; DC.SetBody []]).

Definition document (pk : string) (this : t) : t :=
  calculateUrl
    (DC.merge this [DC.SetDocument (Some pk); DC.SetMethod None;
                    DC.SetBody []]).

Definition method (name : string) (this : t) : t :=
  calculateUrl
    (DC.merge this [DC.SetRequestMethod "POST"; DC.SetMethod (Some name);
                    DC.SetBody []]).

Definition auth (token : string) (this : t) : t :=
  DC.set (DC.SetHeaders
            (omap_set "Authorization" ("Bearer " ++ token) (DC.headers this)))
         this.

Definition format (name : string) (options : omap string) (this : t) : t :=
  let c := DC.set (DC.SetParams (omap_set "format" name (DC.params this)))
                  this in
  let c := DC.set (DC.SetParams (omap_merge (DC.params c) options)) c in
  calculateUrl c.

Definition requestMethod (m : string) (this : t) : t :=
  DC.set (DC.SetRequestMethod m) this.

(** [query(querySet = null)]: a getter without argument, a setter with one. *)
Definition query (querySet : option QuerySet.t) (this : t)
  : QuerySet.t + t :=
  match querySet with
  | None => inl (DC.querySet this)
  | Some qs => inr (DC.set (DC.SetQuerySet qs) this)
  end.

(** The context [fetchSchema(schemaOptions)] executes. *)
Definition fetchSchema_context (schemaOptions : omap string) (this : t) : t :=
  calculateUrl
    (DC.set (DC.SetParams (omap_merge (omap_merge [] schemaOptions)
                                      [("format", "schema")])) this).

(** Lines 396-412 of [call]: the URL and the options given to [fetch]. *)
Definition call_request (this : DC.t) (transientContext : list DC.field_update)
  : request_url * omap optval :=
  let m := DC.merge this transientContext in
  let additional :=
    map (fun kv => (fst kv, OJson (snd kv)))
        (DC.additionalRequestOptions m) in
  if negb (DC.requestMethod m =? "GET")%string then
    let queryBody :=
      omap_merge (omap_merge [] (DC.body m))
                 (QuerySet.value true (DC.querySet m)) in
    let requestBody :=
      if (Z.of_nat (List.length queryBody) =? 0) then ONull
      else OBody queryBody in
    (mkRequestUrl (DC.url m) None,
     omap_merge additional
       [("method", OStr (DC.requestMethod m)); ("body", requestBody);
        ("mode", OStr (DC.mode m)); ("compress", OBool (DC.compress m));
        ("headers", OHeaders (DC.headers m))])
  else
    let queryBody :=
      omap_merge (omap_merge [] (DC.body m))
                 (QuerySet.value false (DC.querySet m)) in
    (mkRequestUrl (DC.url m) (Some queryBody),
     omap_merge additional
       [("method", OStr (DC.requestMethod m));
        ("mode", OStr (DC.mode m)); ("compress", OBool (DC.compress m));
        ("headers", OHeaders (DC.headers m))]).

(** Lines 414-420 of [call]: the promise chain on the outcome of [fetch]. *)
Definition call_settle (o : fetch_outcome) : settled json :=
  catch_
    (then_ (fetch_promise o)
           (fun rsp =>
              if rsp_ok (fst rsp) then rsp_json rsp
              else then_ (rsp_json rsp)
                         (fun err => Failed (VPair (fst rsp) (VJson err)))))
    (fun err => Failed (VPair 0 err)).

Definition call (this : DC.t) (transientContext : list DC.field_update)
    (o : fetch_outcome) : (request_url * omap optval) * settled json :=
  (call_request this transientContext, call_settle o).

(** [callWith(body = null)] *)
Definition callWith (body : option (omap json)) (this : DC.t)
    (o : fetch_outcome) : (request_url * omap optval) * settled json :=
  match body with
  | Some b => call this [DC.SetBody b] o
  | None => call this [] o
  end.

Definition fetchDocument (key : string)
    (transientContext : list DC.field_update) (this : DC.t)
    (o : fetch_outcome) : (request_url * omap optval) * settled json :=
  call (document key this) transientContext o.





Definition fetchSchema (schemaOptions : omap string) (this : DC.t)
    (o : fetch_outcome) : (request_url * omap optval) * settled json :=
  call (fetchSchema_context schemaOptions this) [] o.

(** *** robustCall *)

(** [{deferredRequestId, data}], or the [null] of the ignore policy. *)
Inductive resolution : Type :=
| ResolvedWith (deferredRequestId : Z) (data : json)
| ResolvedNull.

(** [{deferredRequestId, url, status, error}] *)
Record rejection : Type := mkRejection {
  rej_deferredRequestId : Z;
  rej_url : url_value;
  rej_status : Z;
  rej_error : jsvalue
}.

(** State of the promise [p] an invocation returns. *)
Inductive promise_state : Type :=
| Pending
| Resolved (r : resolution)
| Rejected (r : rejection).

(** What an invocation does, in order.  [EEnter] records the parameters an
    invocation runs with; the others are the calls it makes. *)
Inductive event : Type :=
| EEnter (deferredRequestId : Z) (_n : Z) (actionOnFail : string)
| EPing (ping : string)
| EObserver (deferredRequestId : Z) (url : url_value) (error : jserror)
| EDelay (ms : Z)
| EFetch (url : url_value) (requestOptions : omap optval)
| EResolve (r : resolution)
| EReject (r : rejection).

(** The module-level counter and what is left of the oracle. *)
Record world : Type := mkWorld {
  nextDeferredRequestId : Z;
  probes : list probe_outcome;
  fetches : list fetch_outcome
}.

Record run : Type := mkRun {
  promise : promise_state;
  trace : list event;
  after : world
}.

Definition prepend (evs : list event) (r : option run) : option run :=
  match r with
  | Some r => Some (mkRun (promise r) (evs ++ trace r) (after r))
  | None => None
  end.

(** A promise that is returned to a handler chain nobody resolves [p]
    from: its work happens, [p] stays pending. *)
Definition unlinked (r : option run) : option run :=
  match r with
  | Some r => Some (mkRun Pending (trace r) (after r))
  | None => None
  end.

(** [_rqid || nextDeferredRequestId++] *)
Definition assign_id (_rqid : option Z) (w : world) : Z * world :=
  let fresh :=
    (nextDeferredRequestId w,
     mkWorld (nextDeferredRequestId w + 1) (probes w) (fetches w)) in
  match _rqid with
  | Some r => if r =? 0 then fresh else (r, w)
  | None => fresh
  end.

(** [error.status || 0] *)
Definition status_or_zero (error : jserror) : Z :=
  match err_status error with
  | Some s => if s =? 0 then 0 else s
  | None => 0
  end.

Definition ping_url (this : t) : string :=
  DC.protocol this ++ "://" ++ DC.host this ++ ":" ++ DC.port this
    ++ pingPath (DC.robust this).

Section Robust.
(** [_.size] applied to the Immutable map held in [body]; what lodash
    counts on such an object is left open. *)
Variable lodash_size : omap json -> Z.

(** Lines 480-489 of [robustCall]: [requestUrl] and [requestOptions]. *)
Definition robust_request (m : t) : request_url * omap optval :=
  let additional :=
    map (fun kv => (fst kv, OJson (snd kv)))
        (DC.additionalRequestOptions m) in
  if negb (DC.requestMethod m =? "GET")%string then
    let requestBody :=
      if lodash_size (DC.body m) =? 0 then ONull else OBody (DC.body m) in
    (mkRequestUrl (DC.url m) None,
     omap_merge additional
       [("method", OStr (DC.requestMethod m)); ("body", requestBody);
        ("mode", OStr (DC.mode m)); ("compress", OBool (DC.compress m));
        ("headers", OHeaders (DC.headers m))])
  else
    (mkRequestUrl (DC.url m) (Some (DC.body m)),
     omap_merge additional
       [("method", OStr (DC.requestMethod m));
        ("mode", OStr (DC.mode m)); ("compress", OBool (DC.compress m));
        ("headers", OHeaders (DC.headers m))]).

(** The body of [robustCall(transientContext, temporaryErrorCallback,
    actionOnFail, _n, _rqid)], in the order of the source.  The observer is
    the event [EObserver]; [retry] stands for
    [this.robustCall(transientContext, temporaryErrorCallback, ...)], the
    recursive invocation with its last three arguments. *)
Section Invocation.
Variable retry : string -> Z -> option Z -> world -> option run.
Variable this : t.
Variable transientContext : list field_update.
Variable actionOnFail : string.
Variable _n : Z.
Variable deferredRequestId : Z.

(** Lines 507-523: the [.catch((error) => ...)] of the fetch chain.  Only
    the fail and ignore branches call [reject] or [resolve]; the other
    branches return a promise (or throw) inside the handler chain, whose
    value the executor of [p] discards, so [p] itself stays pending. *)
Definition on_error (error : jserror) (w : world) : option run :=
  let m := DC.merge this transientContext in
  let url := DC.url m in
  let robust := DC.robust m in
  let status := status_or_zero error in
  if 0 <? status then Some (mkRun Pending [] w)
  else if (actionOnFail =? "defer")%string then
    prepend
      [EObserver deferredRequestId url error; EDelay (refetchDelay robust)]
      (unlinked
         (retry (if _n <? maxTries robust then "defer" else "fail")
                (_n + 1) None w))
  else if (actionOnFail =? "fail")%string then
    let r := mkRejection deferredRequestId url status (VError error) in
    Some (mkRun (Rejected r) [EReject r] w)
  else if (actionOnFail =? "ignore")%string then
    Some (mkRun (Resolved ResolvedNull) [EResolve ResolvedNull] w)
  else Some (mkRun Pending [] w).

(** Lines 499-506: [.then(() => fetch(url, requestOptions).then(...))].
    The request goes to [url]; the [requestUrl] of line 487 is not used.
    With the oracle exhausted the request stays in flight. *)
Definition send (w : world) : option run :=
  let m := DC.merge this transientContext in
  let url := DC.url m in
  let requestOptions := snd (robust_request m) in
  match fetches w with
  | [] => Some (mkRun Pending [EFetch url requestOptions] w)
  | o :: rest =>
      let w := mkWorld (nextDeferredRequestId w) (probes w) rest in
      prepend [EFetch url requestOptions]
        match o with
        | Response status (inl data) =>
            if rsp_ok status then
              let r := ResolvedWith deferredRequestId data in
              Some (mkRun (Resolved r) [EResolve r] w)
            else
              let r := mkRejection deferredRequestId url status (VJson data) in
              Some (mkRun (Rejected r) [EReject r] w)
        | Response status (inr error) => on_error error w
        | NoResponse error => on_error error w
        end
  end.

(** Lines 495-499: the [.catch((error) => ...)] of the probe, and the
    [.then] that follows it: the handler returns the promise of the nested
    call, so the [.then] runs [send] when that promise is fulfilled and is
    skipped when it is rejected or never settles. *)
Definition reprobe (error : jserror) (w : world) : option run :=
  let url := DC.url (DC.merge this transientContext) in
  let refetchDelay := refetchDelay (DC.robust this) in
  prepend
    [EObserver deferredRequestId url error; EDelay refetchDelay]
    match retry actionOnFail _n (Some deferredRequestId) w with
    | None => None
    | Some r =>
        match promise r with
        | Resolved _ => prepend (trace r) (send (after r))
        | _ => Some (mkRun Pending (trace r) (after r))
        end
    end.

(** Lines 492-495: the executor of [p], from [this._isOnline()] on.  With
    the oracle exhausted the probe stays in flight. *)
Definition executor (w : world) : option run :=
  match probes w with
  | [] => Some (mkRun Pending [] w)
  | p :: rest =>
      let w := mkWorld (nextDeferredRequestId w) rest (fetches w) in
      match p with
      | Offline => reprobe not_online w
      | PingFailed error => prepend [EPing (ping_url this)] (reprobe error w)
      | PingSettled => prepend [EPing (ping_url this)] (send w)
      end
  end.
End Invocation.

Definition invocation (retry : string -> Z -> option Z -> world -> option run)
    (this : t) (transientContext : list field_update) (actionOnFail : string)
    (_n : Z) (_rqid : option Z) (w : world) : option run :=
  let '(deferredRequestId, w) := assign_id _rqid w in
  prepend [EEnter deferredRequestId _n actionOnFail]
    (executor retry this transientContext actionOnFail _n deferredRequestId w).

(** [robustCall]: [fuel] bounds the nesting of invocations, [None] means it
    ran out. *)
Fixpoint robustCall (fuel : nat) (this : t)
    (transientContext : list field_update) (actionOnFail : string)
    (_n : Z) (_rqid : option Z) (w : world) {struct fuel} : option run :=
  match fuel with
  | O => None
  | S fuel =>
      invocation (robustCall fuel this transientContext)
                 this transientContext actionOnFail _n _rqid w
  end.
End Robust.
End Sondra.

(** * Vocabulary of the properties *)

Module DC := DefaultContext.
Import DC (UrlString, UrlContext).

(** ** The URL layout *)

(** The layout in the words of the specification: a selector contributes its
    separator and name when it is selected, nothing otherwise.  A selector
    is selected when the code's test [if (app)] passes. *)
Definition selected (v : option string) : bool := truthy v.

Definition segment (separator : string) (v : option string) : string :=
  if selected v then separator ++ template v else "".

Definition format_pairs (params : omap string) : list string :=
  map (fun kv => escape (fst kv) ++ "=" ++ escape (snd kv)) params.

Definition url_layout (c : DC.t) : string :=
  DC.protocol c ++ "://" ++ DC.host c ++ ":" ++ DC.port c ++ "/"
    ++ String.concat "/" (DC.basePath c)
    ++ segment "/" (DC.app c)
    ++ segment "/" (DC.collection c)
    ++ segment "/" (DC.document c)
    ++ segment "." (DC.method c)
    ++ ";" ++ String.concat ";" (format_pairs (DC.params c)).

(** The fields the URL is a function of. *)
Definition url_fields (c : DC.t) :=
  (DC.protocol c, DC.host c, DC.port c, DC.basePath c, DC.app c,
   DC.collection c, DC.document c, DC.method c, DC.params c).

(** The URL slot is up to date with the fields. *)
Definition url_current (c : DC.t) : Prop :=
  DC.url c = UrlString (url_layout c).

(** ** The URL layout in the words of the specification *)

(** Escaping as the documentation of [_.escape] words it: ampersand,
    less-than, greater-than, double quote and single quote are replaced by
    their HTML entities; every other character stands for itself. *)
Definition html_entities : list (ascii * string) :=
  [("&"%char, "&amp;"); ("<"%char, "&lt;"); (">"%char, "&gt;");
   (dquote, "&quot;"); ("'"%char, "&#39;")].

Fixpoint entity_of (c : ascii) (table : list (ascii * string))
  : option string :=
  match table with
  | [] => None
  | (c', entity) :: table' =>
      if Ascii.eqb c' c then Some entity else entity_of c table'
  end.

Fixpoint escaped (s : string) : string :=
  match s with
  | EmptyString => EmptyString
  | String c s' =>
      match entity_of c html_entities with
      | Some entity => entity ++ escaped s'
      | None => String c (escaped s')
      end
  end.

(** A format parameter rendered as an escaped [key=value] pair. *)
Definition rendered_pair (kv : string * string) : string :=
  escaped (fst kv) ++ "=" ++ escaped (snd kv).

(** A path segment as the specification words it: the separator and the
    name if a name is selected, nothing otherwise. *)
Definition documented_segment (separator : string) (v : option string)
  : string :=
  match v with
  | Some name => separator ++ name
  | None => ""
  end.

(** The reading under which the empty name counts as no selection. *)
Definition effective_segment (separator : string) (v : option string)
  : string :=
  match v with
  | Some name => if (name =? "")%string then "" else separator ++ name
  | None => ""
  end.

(** [{protocol}://{host}:{port}/{basePath...}[/{app}[/{collection}
    [/{document}]]][.{method}];{key}={value}[;{key}={value}...]], for a
    given reading of the optional segments. *)
Definition layout_of (segment_of : string -> option string -> string)
    (c : DC.t) : string :=
  DC.protocol c ++ "://" ++ DC.host c ++ ":" ++ DC.port c ++ "/"
    ++ String.concat "/" (DC.basePath c)
    ++ segment_of "/" (DC.app c)
    ++ segment_of "/" (DC.collection c)
    ++ segment_of "/" (DC.document c)
    ++ segment_of "." (DC.method c)
    ++ ";" ++ String.concat ";" (map rendered_pair (DC.params c)).

Definition documented_layout : DC.t -> string := layout_of documented_segment.
Definition effective_layout : DC.t -> string := layout_of effective_segment.

(** No selector holds the empty name. *)
Definition given (v : option string) : bool :=
  match v with
  | Some name => negb (name =? "")%string
  | None => true
  end.

Definition names_given (c : DC.t) : bool :=
  given (DC.app c) && given (DC.collection c) && given (DC.document c)
  && given (DC.method c).

(** The selections, which recompute the URL, and the other builders a
    navigation may go through, which leave the URL's fields alone. *)
Inductive selection : Type :=
| SelectApp (name : string)
| SelectCollection (name : string)
| SelectDocument (pk : string)
| SelectMethod (name : string)
| SelectFormat (name : string) (options : omap string).

Inductive step : Type :=
| Select (s : selection)
| Auth (token : string)
| Verb (m : string)
| Query (qs : QuerySet.t).

Definition select (s : selection) (c : DC.t) : DC.t :=
  match s with
  | SelectApp name => Sondra.app name c
  | SelectCollection name => Sondra.collection name c
  | SelectDocument pk => Sondra.document pk c
  | SelectMethod name => Sondra.method name c
  | SelectFormat name options => Sondra.format name options c
  end.

Definition take (s : step) (c : DC.t) : DC.t :=
  match s with
  | Select s => select s c
  | Auth token => Sondra.auth token c
  | Verb m => Sondra.requestMethod m c
  | Query qs =>
      match Sondra.query (Some qs) c with
      | inr c' => c'
      | inl _ => c
      end
  end.

Definition navigate (l : list step) (c : DC.t) : DC.t :=
  fold_left (fun acc s => take s acc) l c.

(** ** Runs of the resilient call *)

(** [w'] comes no earlier than [w]: the oracle only shrinks, the counter
    only grows. *)
Definition later (w w' : Sondra.world) : Prop :=
  (List.length (Sondra.probes w') <= List.length (Sondra.probes w))%nat
  /\ Sondra.nextDeferredRequestId w <= Sondra.nextDeferredRequestId w'.

(** [retry] answers on every world with fewer than [f] probe outcomes left. *)
Definition answers (retry : string -> Z -> option Z -> Sondra.world
                            -> option Sondra.run) (f : nat) : Prop :=
  forall a n r w,
    (List.length (Sondra.probes w) < f)%nat ->
    exists res, retry a n r w = Some res /\ later w (Sondra.after res).

(** The error a failed probe hands to its handler: the literal "not online"
    when the environment reports no connectivity, the error of the HEAD
    request otherwise. *)
Definition probe_error (p : probe_outcome) : option jserror :=
  match p with
  | Offline => Some not_online
  | PingFailed e => Some e
  | PingSettled => None
  end.

Definition ping_events (this : DC.t) (p : probe_outcome) : list Sondra.event :=
  match p with
  | Offline => []
  | _ => [Sondra.EPing (Sondra.ping_url this)]
  end.

Definition is_fetch (e : Sondra.event) : bool :=
  match e with Sondra.EFetch _ _ => true | _ => false end.

Definition is_observer (e : Sondra.event) : bool :=
  match e with Sondra.EObserver _ _ _ => true | _ => false end.

(** Physical attempts and observer calls of a trace. *)
Definition attempts (tr : list Sondra.event) : nat :=
  List.length (filter is_fetch tr).

Definition observer_calls (tr : list Sondra.event) : nat :=
  List.length (filter is_observer tr).

(** What one attempt that ends in a response-less failure [e] does under
    the defer policy, up to the re-invocation. *)
Definition failed_attempt (lodash_size : omap json -> Z) (this : DC.t)
    (tc : list DC.field_update) (e : jserror) (id n : Z)
  : list Sondra.event :=
  let m := DC.merge this tc in
  [Sondra.EEnter id n "defer"; Sondra.EPing (Sondra.ping_url this);
   Sondra.EFetch (DC.url m) (snd (Sondra.robust_request lodash_size m));
   Sondra.EObserver id (DC.url m) e;
   Sondra.EDelay (refetchDelay (DC.robust m))].

(** [k] such attempts in a row: each one under the next id and index. *)
Fixpoint failed_attempts (lodash_size : omap json -> Z) (this : DC.t)
    (tc : list DC.field_update) (e : jserror) (k : nat) (id n : Z)
  : list Sondra.event :=
  match k with
  | O => []
  | S k =>
      failed_attempt lodash_size this tc e id n
        ++ failed_attempts lodash_size this tc e k (id + 1) (n + 1)
  end.

(** The attempt that ends a chain: it obtains a response, or fails under
    the fail policy. *)
Definition last_attempt (lodash_size : omap json -> Z) (this : DC.t)
    (tc : list DC.field_update) (id n : Z) (policy : string)
    (settlement : Sondra.event) : list Sondra.event :=
  let m := DC.merge this tc in
  [Sondra.EEnter id n policy; Sondra.EPing (Sondra.ping_url this);
   Sondra.EFetch (DC.url m) (snd (Sondra.robust_request lodash_size m));
   settlement].

(** The context with its QuerySet put back to the empty one. *)
Definition forget_querySet (c : DC.t) : DC.t :=
  DC.set (DC.SetQuerySet QuerySet.new) c.

(** ** Sample inputs, after the repository's tests *)

Definition pronto : DC.t :=
  Sondra.suite "http" "localhost" "5000" DefaultBasePath Sondra.new.
Definition auth_app : DC.t := Sondra.app "auth" pronto.
Definition users : DC.t := Sondra.collection "users" auth_app.
Definition login : DC.t := Sondra.method "login" auth_app.
Definition credentials : list DC.field_update :=
  [DC.SetBody [("username", JStr "jefferson"); ("password", JStr "secret")]].

(** One reading of [_.size]: the number of entries. *)
Definition count_entries (b : omap json) : Z := Z.of_nat (List.length b).

Definition failed_to_fetch : jserror := mkError "Failed to fetch" None.

(** ** QuerySet calls *)

(** A call to one of the filter methods, and the operation it pushes. *)
Inductive filter_call : Type :=
| FLt (lhs rhs dflt : json)
| FGt (lhs rhs dflt : json)
| FLte (lhs rhs dflt : json)
| FGte (lhs rhs dflt : json)
| FEq (lhs rhs dflt : json)
| FMatch (lhs rhs dflt : json)
| FContains (lhs rhs dflt : json)
| FHasFields (fields : json).

Definition filter_op (f : filter_call) : json :=
  match f with
  | FLt l r d => QuerySet.comparison "<" l r d
  | FGt l r d => QuerySet.comparison ">" l r d
  | FLte l r d => QuerySet.comparison "<=" l r d
  | FGte l r d => QuerySet.comparison ">=" l r d
  | FEq l r d => QuerySet.comparison "==" l r d
  | FMatch l r d => QuerySet.comparison "match" l r d
  | FContains l r d => QuerySet.comparison "contains" l r d
  | FHasFields fields => JObj [("op", JStr "has_fields"); ("fields", fields)]
  end.

Definition apply_filter (f : filter_call) (qs : QuerySet.t)
  : option QuerySet.t :=
  match f with
  | FLt l r d => QuerySet.lt l r d qs
  | FGt l r d => QuerySet.gt l r d qs
  | FLte l r d => QuerySet.lte l r d qs
  | FGte l r d => QuerySet.gte l r d qs
  | FEq l r d => QuerySet.eq l r d qs
  | FMatch l r d => QuerySet.match_ l r d qs
  | FContains l r d => QuerySet.contains l r d qs
  | FHasFields fields => QuerySet.hasFields fields qs
  end.

(** The calls chained left to right; a throw ends the chain. *)
Definition apply_filters (l : list filter_call) (qs : QuerySet.t)
  : option QuerySet.t :=
  fold_left (fun acc f => match acc with
                          | Some qs => apply_filter f qs
                          | None => None
                          end) l (Some qs).

(** The filter chain of a QuerySet, and whether its [flt] slot is one the
    filter methods can extend: absent, or a list. *)
Definition chain (qs : QuerySet.t) : list json :=
  match omap_get "flt" (QuerySet.q qs) with
  | Some (JArr l) => l
  | _ => []
  end.

Definition chain_ok (qs : QuerySet.t) : bool :=
  match omap_get "flt" (QuerySet.q qs) with
  | None | Some (JArr _) => true
  | Some _ => false
  end.

(** A call to one of the methods that write a single slot. *)
Inductive setter : Type :=
| SStart (x : json)
| SEnd (x : json)
| SLimit (x : json)
| SCount
| SCountValue (value : json)
| SSum (field : json)
| SAvg (field : json)
| SMin (field : json)
| SMax (field : json)
| SPluck (fields : list json)
| SWithout (fields : list json)
| SDistinct (index : json)
| SMinInIndex (index : json)
| SMaxInIndex (index : json)
| SIntersecting (geometry against : json)
| SNearest (point against max_results max_dist unit : json).

Definition apply_setter (s : setter) (qs : QuerySet.t) : QuerySet.t :=
  match s with
  | SStart x => QuerySet.start x qs
  | SEnd x => QuerySet.end_ x qs
  | SLimit x => QuerySet.limit x qs
  | SCount => QuerySet.count qs
  | SCountValue v => QuerySet.countValue v qs
  | SSum f => QuerySet.sum f qs
  | SAvg f => QuerySet.avg f qs
  | SMin f => QuerySet.min f qs
  | SMax f => QuerySet.max f qs
  | SPluck fs => QuerySet.pluck fs qs
  | SWithout fs => QuerySet.without fs qs
  | SDistinct i => QuerySet.distinct i qs
  | SMinInIndex i => QuerySet.minInIndex i qs
  | SMaxInIndex i => QuerySet.maxInIndex i qs
  | SIntersecting g a => QuerySet.getIntersecting g a qs
  | SNearest p a mr md u => QuerySet.getNearest p a mr md u qs
  end.

Definition slot (s : setter) : string :=
  match s with
  | SStart _ => "start"
  | SEnd _ => "end"
  | SLimit _ => "limit"
  | SIntersecting _ _ | SNearest _ _ _ _ _ => "geo"
  | _ => "agg"
  end.

(** The entries of [m] under the names [ps], in the order of [ps], each
    value through [f]. *)
Definition pick_from {V W : Type} (f : V -> W) (m : omap V)
    (ps : list string) : omap W :=
  flat_map (fun p => match omap_get p m with
                     | Some v => [(p, f v)]
                     | None => []
                     end) ps.

Definition is_in (k : string) (ps : list string) : bool :=
  existsb (fun p => (p =? k)%string) ps.

(** A QuerySet the methods can work on: [flt] is absent or a list, and the
    other composite slots are absent or hold a list or a map.  Outside of
    that, [push] or [toJS] is missing on the value and the source throws. *)
Definition listy (o : option json) : bool :=
  match o with
  | None | Some (JArr _) => true
  | Some _ => false
  end.

Definition composite (o : option json) : bool :=
  match o with
  | None | Some (JArr _) | Some (JObj _) => true
  | Some _ => false
  end.

Definition well_formed (qs : QuerySet.t) : bool :=
  listy (omap_get "flt" (QuerySet.q qs))
  && composite (omap_get "agg" (QuerySet.q qs))
  && composite (omap_get "geo" (QuerySet.q qs))
  && composite (omap_get "keys" (QuerySet.q qs)).

(** Any call to a builder method, and chains of them. *)
Inductive builder_call : Type :=
| BFilter (f : filter_call)
| BSetter (s : setter)
| BForKeys (keys : list json) (index : json).

Definition apply_builder (b : builder_call) (qs : QuerySet.t)
  : option QuerySet.t :=
  match b with
  | BFilter f => apply_filter f qs
  | BSetter s => Some (apply_setter s qs)
  | BForKeys keys index => Some (QuerySet.forKeys keys index qs)
  end.

Definition build (l : list builder_call) (qs : QuerySet.t)
  : option QuerySet.t :=
  fold_left (fun acc b => match acc with
                          | Some qs => apply_builder b qs
                          | None => None
                          end) l (Some qs).

(** The operations the filter calls of a chain push, in call order. *)
Definition pushed (l : list builder_call) : list json :=
  flat_map (fun b => match b with
                     | BFilter f => [filter_op f]
                     | _ => []
                     end) l.

(** The value a setter writes into its slot. *)
Definition written (s : setter) : json :=
  match s with
  | SStart x | SEnd x | SLimit x => x
  | SCount => JObj [("op", JStr "count")]
  | SCountValue v => JObj [("op", JStr "count"); ("args", JArr [v])]
  | SSum f => JObj [("op", JStr "sum"); ("args", JArr [f])]
  | SAvg f => JObj [("op", JStr "avg"); ("args", JArr [f])]
  | SMin f => JObj [("op", JStr "min"); ("args", JArr [f])]
  | SMax f => JObj [("op", JStr "max"); ("args", JArr [f])]
  | SPluck fs => JObj [("op", JStr "pluck"); ("args", JArr fs)]
  | SWithout fs => JObj [("op", JStr "without"); ("args", JArr fs)]
  | SDistinct i =>
      if QuerySet.js_truthy i
      then JObj [("op", JStr "distinct"); ("kwargs", JObj [("index", i)])]
      else JObj [("op", JStr "distinct")]
  | SMinInIndex i => JObj [("op", JStr "min"); ("kwargs", JObj [("index", i)])]
  | SMaxInIndex i => JObj [("op", JStr "max"); ("kwargs", JObj [("index", i)])]
  | SIntersecting g a =>
      JObj (QuerySet.with_against a
              [("op", JStr "get_intersecting"); ("args", JArr [g])])
  | SNearest p a mr md u =>
      JObj (QuerySet.with_against a
              [("op", JStr "get_nearest"); ("args", JArr [p]);
               ("kwargs", JObj [("max_results", mr); ("max_dist", md);
                                ("unit", u)])])
  end.

(** ** Contexts *)

Definition is_method_selection (s : selection) : bool :=
  match s with SelectMethod _ => true | _ => false end.

Definition sets_url (u : DC.field_update) : bool :=
  match u with DC.SetUrl _ => true | _ => false end.

(** The option names [call] computes itself. *)
Definition computed_options : list string :=
  ["method"; "body"; "mode"; "compress"; "headers"].

(** ** Probes *)

Definition is_failed_probe (p : probe_outcome) : bool :=
  match p with PingSettled => false | _ => true end.

Definition answered (sd : Z * json) : fetch_outcome :=
  Response (fst sd) (inl (snd sd)).

(** ** Request ids *)

(** The id an invocation runs under, and the counter it leaves, as
    [_rqid || nextDeferredRequestId++] decides them. *)
Definition drawn_id (rqid : option Z) (next : Z) : Z :=
  match rqid with
  | Some r => if r =? 0 then next else r
  | None => next
  end.

Definition drawn_counter (rqid : option Z) (next : Z) : Z :=
  match rqid with
  | Some r => if r =? 0 then next + 1 else next
  | None => next + 1
  end.

Definition is_enter (e : Sondra.event) : bool :=
  match e with Sondra.EEnter _ _ _ => true | _ => false end.

Definition is_settlement (e : Sondra.event) : bool :=
  match e with
  | Sondra.EResolve _ | Sondra.EReject _ => true
  | _ => false
  end.

(** The policies [switch (actionOnFail)] knows. *)
Definition known_policy (a : string) : bool :=
  is_in a ["defer"; "fail"; "ignore"].

(** What an event of a resilient call on [this] with overrides [tc] may be:
    requests go to the stored URL with the options of the merged context,
    pings go to the ping URL of [this], the observer gets the stored URL,
    and a delay is one of the two configured retry delays. *)
Definition regular_event (lodash_size : omap json -> Z) (this : DC.t)
    (tc : list DC.field_update) (e : Sondra.event) : Prop :=
  let m := DC.merge this tc in
  match e with
  | Sondra.EFetch url options =>
      url = DC.url m /\ options = snd (Sondra.robust_request lodash_size m)
  | Sondra.EObserver _ url _ => url = DC.url m
  | Sondra.EPing ping => ping = Sondra.ping_url this
  | Sondra.EDelay ms =>
      ms = refetchDelay (DC.robust this) \/ ms = refetchDelay (DC.robust m)
  | Sondra.EReject r => Sondra.rej_url r = DC.url m
  | _ => True
  end.

(** * Properties *)

(** ** Strings and ordered maps *)

Lemma append_assoc (a b c : string) :
  ((a ++ b) ++ c = a ++ (b ++ c))%string.
Proof.
  induction a as [|x a IH]; simpl; [reflexivity | now rewrite IH].
Qed.

Lemma omap_set_fresh {V : Type} (k : string) (v : V) (m : omap V) :
  omap_has k m = false -> omap_set k v m = (m ++ [(k, v)])%list.
Proof.
  unfold omap_has.
  induction m as [|[k' v'] m IH]; simpl; [reflexivity|].
  destruct (k' =? k)%string; [discriminate|].
  intros H. now rewrite IH.
Qed.

Lemma omap_set_keys {V : Type} (k : string) (v : V) (m : omap V) :
  omap_has k m = true -> map fst (omap_set k v m) = map fst m.
Proof.
  unfold omap_has.
  induction m as [|[k' v'] m IH]; simpl; [discriminate|].
  destruct (k' =? k)%string eqn:E.
  - intros _. apply String.eqb_eq in E. now subst.
  - intros H. simpl. now rewrite IH.
Qed.

Lemma omap_get_set_same {V : Type} (k : string) (v : V) (m : omap V) :
  omap_get k (omap_set k v m) = Some v.
Proof.
  induction m as [|[k' v'] m IH]; cbn.
  - now rewrite String.eqb_refl.
  - destruct (k' =? k)%string eqn:E; cbn.
    + now rewrite String.eqb_refl.
    + now rewrite E.
Qed.

Lemma omap_get_set_other {V : Type} (k k0 : string) (v : V) (m : omap V) :
  (k0 =? k)%string = false ->
  omap_get k (omap_set k0 v m) = omap_get k m.
Proof.
  intros Hk.
  induction m as [|[k' v'] m IH]; cbn.
  - now rewrite Hk.
  - destruct (k' =? k0)%string eqn:E; cbn.
    + apply String.eqb_eq in E. subst k'. now rewrite Hk.
    + now rewrite IH.
Qed.

(** ** The URL layout *)

Lemma calculateUrl_current (c : DC.t) : url_current (Sondra.calculateUrl c).
Proof.
  destruct c as [pr ho po mo co ur bp he ao rm su ap cl dc me pa bo qs ai rb].
  unfold url_current, Sondra.calculateUrl, url_layout, segment, selected,
    responseFormat, format_pairs, thread.
  cbn [DC.set DC.url DC.protocol DC.host DC.port DC.basePath DC.app
       DC.collection DC.document DC.method DC.params].
  f_equal.
  destruct (truthy ap), (truthy cl), (truthy dc), (truthy me);
    repeat rewrite append_assoc; reflexivity.
Qed.

Lemma select_current (s : selection) (c : DC.t) : url_current (select s c).
Proof.
  destruct s; cbn [select];
    unfold Sondra.app, Sondra.collection, Sondra.document, Sondra.method,
      Sondra.format; apply calculateUrl_current.
Qed.



(** The layout the code computes and the effective layout are the same
    function of the fields. *)
Lemma escape_is_escaped (s : string) : escape s = escaped s.
Proof.
  induction s as [|ch s IH]; [reflexivity|].
  cbn [escape escaped]. rewrite IH.
  unfold escape_char, html_entities, entity_of.
  destruct (Ascii.eqb ch "&"%char) eqn:E1;
    [apply Ascii.eqb_eq in E1; subst ch; reflexivity|].
  rewrite Ascii.eqb_sym in E1. rewrite E1.
  destruct (Ascii.eqb ch "<"%char) eqn:E2;
    [apply Ascii.eqb_eq in E2; subst ch; reflexivity|].
  rewrite Ascii.eqb_sym in E2. rewrite E2.
  destruct (Ascii.eqb ch ">"%char) eqn:E3;
    [apply Ascii.eqb_eq in E3; subst ch; reflexivity|].
  rewrite Ascii.eqb_sym in E3. rewrite E3.
  destruct (Ascii.eqb ch dquote) eqn:E4;
    [apply Ascii.eqb_eq in E4; subst ch; reflexivity|].
  rewrite Ascii.eqb_sym in E4. rewrite E4.
  destruct (Ascii.eqb ch "'"%char) eqn:E5;
    [apply Ascii.eqb_eq in E5; subst ch; reflexivity|].
  rewrite Ascii.eqb_sym in E5. rewrite E5.
  reflexivity.
Qed.

Lemma format_pairs_rendered (params : omap string) :
  format_pairs params = map rendered_pair params.
Proof.
  unfold format_pairs, rendered_pair. apply map_ext.
  intros [k v]. cbn. now rewrite !escape_is_escaped.
Qed.

Lemma segment_is_effective (separator : string) (v : option string) :
  segment separator v = effective_segment separator v.
Proof.
  destruct v as [name|]; [|reflexivity].
  unfold segment, selected, truthy, template, effective_segment.
  destruct (name =? "")%string; reflexivity.
Qed.

Lemma url_layout_is_effective (c : DC.t) : url_layout c = effective_layout c.
Proof.
  unfold url_layout, effective_layout, layout_of.
  now rewrite !segment_is_effective, format_pairs_rendered.
Qed.

Lemma effective_segment_of_given (separator : string) (v : option string) :
  given v = true ->
  effective_segment separator v = documented_segment separator v.
Proof.
  destruct v as [name|]; [|reflexivity].
  unfold given, effective_segment, documented_segment.
  destruct (name =? "")%string; [discriminate | reflexivity].
Qed.

(** Where every selected name is non-empty the effective layout is the
    documented one. *)
Lemma layouts_agree_on_given_names (c : DC.t) :
  names_given c = true -> effective_layout c = documented_layout c.
Proof.
  unfold names_given, effective_layout, documented_layout, layout_of.
  intros H. apply andb_prop in H as [H Hm]. apply andb_prop in H as [H Hd].
  apply andb_prop in H as [Ha Hc].
  now rewrite !effective_segment_of_given.
Qed.




(** The full chain on names that are not empty. *)
Lemma fields_of_full_chain (c : DC.t) (a cl d m : string) :
  url_fields (Sondra.method m (Sondra.document d (Sondra.collection cl
                                                    (Sondra.app a c))))
  = (DC.protocol c, DC.host c, DC.port c, DC.basePath c,
     Some a, Some cl, Some d, Some m, DC.params c).
Proof.
  destruct c as [pr ho po mo co ur bp he ao rm su ap c0 dc me pa bo qs ai rb].
  reflexivity.
Qed.

Lemma url_layout_of_fields (c : DC.t) pr ho po bp ap cl dc me pa :
  url_fields c = (pr, ho, po, bp, ap, cl, dc, me, pa) ->
  url_layout c
  = (pr ++ "://" ++ ho ++ ":" ++ po ++ "/" ++ String.concat "/" bp
       ++ segment "/" ap ++ segment "/" cl ++ segment "/" dc
       ++ segment "." me ++ ";" ++ String.concat ";" (format_pairs pa))%string.
Proof.
  unfold url_fields, url_layout. intros H. inversion H. reflexivity.
Qed.

(** A selector left at [null], or set to the empty name, adds nothing. *)
Lemma segment_of_nothing (separator : string) :
  segment separator None = "" /\ segment separator (Some "") = "".
Proof. split; reflexivity. Qed.

Lemma segment_of_name (separator name : string) :
  name <> "" -> segment separator (Some name) = (separator ++ name)%string.
Proof.
  intros H. apply String.eqb_neq in H.
  unfold segment, selected, truthy. now rewrite H.
Qed.

Lemma current_url_of_chain (x : DC.t) pr ho po bp (a cl d m : string) pa :
  url_current x ->
  url_fields x = (pr, ho, po, bp, Some a, Some cl, Some d, Some m, pa) ->
  a <> "" -> cl <> "" -> d <> "" -> m <> "" ->
  DC.url x
  = UrlString (pr ++ "://" ++ ho ++ ":" ++ po ++ "/"
               ++ String.concat "/" bp
               ++ "/" ++ a ++ "/" ++ cl ++ "/" ++ d ++ "." ++ m
               ++ ";" ++ String.concat ";" (format_pairs pa)).
Proof.
  intros Hx Hf Ha Hcl Hd Hm.
  rewrite Hx, (url_layout_of_fields _ _ _ _ _ _ _ _ _ _ Hf).
  rewrite !segment_of_name by assumption.
  repeat rewrite append_assoc. reflexivity.
Qed.

Lemma url_of_full_chain (c : DC.t) (a cl d m : string) :
  a <> "" -> cl <> "" -> d <> "" -> m <> "" ->
  DC.url (Sondra.method m (Sondra.document d (Sondra.collection cl
                                                (Sondra.app a c))))
  = UrlString (DC.protocol c ++ "://" ++ DC.host c ++ ":" ++ DC.port c ++ "/"
               ++ String.concat "/" (DC.basePath c)
               ++ "/" ++ a ++ "/" ++ cl ++ "/" ++ d ++ "." ++ m
               ++ ";" ++ String.concat ";" (format_pairs (DC.params c))).
Proof.
  intros Ha Hcl Hd Hm.
  apply current_url_of_chain; try assumption.
  - unfold Sondra.method. apply calculateUrl_current.
  - apply fields_of_full_chain.
Qed.

Lemma params_after_format (name : string) (options : omap string) (c : DC.t) :
  DC.params (Sondra.format name options c)
  = omap_merge (omap_set "format" name (DC.params c)) options.
Proof. destruct c; reflexivity. Qed.

Example escape_of_markup :
  escape "a&b<c>" = "a&amp;b&lt;c&gt;"
  /\ responseFormat [("format", "json"); ("bare_keys", "true")]
     = "format=json;bare_keys=true".
Proof. split; reflexivity. Qed.

(** The URLs the repository's tests expect. *)
Example urls_of_the_tests :
  DC.url auth_app = UrlString "http://localhost:5000/api/auth;format=json"
  /\ DC.url (Sondra.format "json" [("indent", "2")] auth_app)
     = UrlString "http://localhost:5000/api/auth;format=json;indent=2"
  /\ DC.url users = UrlString "http://localhost:5000/api/auth/users;format=json"
  /\ DC.url login = UrlString "http://localhost:5000/api/auth.login;format=json"
  /\ DC.url (Sondra.document "jefferson" users)
     = UrlString "http://localhost:5000/api/auth/users/jefferson;format=json".
Proof. repeat split; reflexivity. Qed.

(** ** Selections *)

(** What the selections leave of the fields the URL is computed from. *)
Lemma fields_after_selection (c : DC.t) (name : string) :
  url_fields (Sondra.app name c)
  = (DC.protocol c, DC.host c, DC.port c, DC.basePath c,
     Some name, None, None, None, DC.params c)
  /\ url_fields (Sondra.collection name c)
     = (DC.protocol c, DC.host c, DC.port c, DC.basePath c,
        DC.app c, Some name, None, None, DC.params c)
  /\ url_fields (Sondra.document name c)
     = (DC.protocol c, DC.host c, DC.port c, DC.basePath c,
        DC.app c, DC.collection c, Some name, None, DC.params c)
  /\ url_fields (Sondra.method name c)
     = (DC.protocol c, DC.host c, DC.port c, DC.basePath c,
        DC.app c, DC.collection c, DC.document c, Some name, DC.params c).
Proof.
  destruct c as [pr ho po mo co ur bp he ao rm su ap cl dc me pa bo qs ai rb].
  repeat split.
Qed.

Lemma selection_url (s : selection) (c : DC.t) :
  DC.url (select s c) = UrlString (effective_layout (select s c)).
Proof. rewrite <- url_layout_is_effective. apply select_current. Qed.

(** C8. Selecting an app clears collection, document and method and empties
    the body; selecting a collection clears document and method and empties
    the body; selecting a document clears the method and empties the body;
    selecting a method empties the body and sets the verb to POST.  Each
    selection is a function from contexts to contexts (the argument is not
    modified), keeps the coarser selectors, the connection target, the base
    path and the format parameters, and returns a context whose stored URL
    is recomputed: it is the layout of the new fields (target, base path,
    the selectors that hold a non-empty name, the escaped format
    parameters), so that computing the URL again changes nothing. *)
Theorem selection_clears_finer_selectors (c : DC.t) (name : string) :
  (let c' := Sondra.app name c in
   DC.app c' = Some name /\ DC.collection c' = None /\ DC.document c' = None
   /\ DC.method c' = None /\ DC.body c' = []
   /\ Sondra.calculateUrl c' = c'
   /\ url_fields c'
      = (DC.protocol c, DC.host c, DC.port c, DC.basePath c,
         Some name, None, None, None, DC.params c)
   /\ DC.url c' = UrlString (effective_layout c'))
  /\ (let c' := Sondra.collection name c in
      DC.app c' = DC.app c /\ DC.collection c' = Some name
      /\ DC.document c' = None /\ DC.method c' = None /\ DC.body c' = []
      /\ Sondra.calculateUrl c' = c'
      /\ url_fields c'
         = (DC.protocol c, DC.host c, DC.port c, DC.basePath c,
            DC.app c, Some name, None, None, DC.params c)
      /\ DC.url c' = UrlString (effective_layout c'))
  /\ (let c' := Sondra.document name c in
      DC.app c' = DC.app c /\ DC.collection c' = DC.collection c
      /\ DC.document c' = Some name /\ DC.method c' = None /\ DC.body c' = []
      /\ Sondra.calculateUrl c' = c'
      /\ url_fields c'
         = (DC.protocol c, DC.host c, DC.port c, DC.basePath c,
            DC.app c, DC.collection c, Some name, None, DC.params c)
      /\ DC.url c' = UrlString (effective_layout c'))
  /\ (let c' := Sondra.method name c in
      DC.app c' = DC.app c /\ DC.collection c' = DC.collection c
      /\ DC.document c' = DC.document c /\ DC.method c' = Some name
      /\ DC.body c' = [] /\ DC.requestMethod c' = "POST"
      /\ Sondra.calculateUrl c' = c'
      /\ url_fields c'
         = (DC.protocol c, DC.host c, DC.port c, DC.basePath c,
            DC.app c, DC.collection c, DC.document c, Some name,
            DC.params c)
      /\ DC.url c' = UrlString (effective_layout c')).
Proof.
  pose proof (fields_after_selection c name) as (Fa & Fc & Fd & Fm).
  pose proof (selection_url (SelectApp name) c) as Ua.
  pose proof (selection_url (SelectCollection name) c) as Uc.
  pose proof (selection_url (SelectDocument name) c) as Ud.
  pose proof (selection_url (SelectMethod name) c) as Um.
  cbn [select] in Ua, Uc, Ud, Um.
  destruct c as [pr ho po mo co ur bp he ao rm su ap cl dc me pa bo qs ai rb].
  repeat split; assumption.
Qed.

(** ** Rebinding the connection target *)

(** C6. What [suite] returns: the three coordinates are rebound, the
    [basePath] argument is dropped, and the [url] slot holds the context
    that [calculateUrl] returned, not a string. *)
Theorem suite_stores_a_context_under_url
    (protocol host port : string) (basePath : list string) (c : DC.t) :
  let s := Sondra.suite protocol host port basePath c in
  DC.protocol s = protocol /\ DC.host s = host /\ DC.port s = port
  /\ DC.basePath s = DC.basePath c
  /\ DC.url s
     = UrlContext
         (Sondra.calculateUrl
            (DC.merge c [DC.SetProtocol protocol; DC.SetHost host;
                         DC.SetPort port]))
  /\ (forall text : string, DC.url s <> UrlString text)
  /\ ~ url_current s.
Proof.
  destruct c as [pr ho po mo co ur bp he ao rm su ap cl dc me pa bo qs ai rb].
  cbn. repeat split; try (intros text H; discriminate H).
  unfold url_current. cbn. discriminate.
Qed.

Example suite_on_the_default_context :
  DC.url (Sondra.suite "http" "localhost" "5000" ["v2"] Sondra.new)
  = UrlContext
      (DC.set (DC.SetUrl (UrlString "http://localhost:5000/api;format=json"))
              (DC.merge Sondra.new
                        [DC.SetProtocol "http"; DC.SetHost "localhost";
                         DC.SetPort "5000"])).
Proof. reflexivity. Qed.

(** ** The resilient call: enough fuel gives a result *)

Local Open Scope list_scope.

Lemma later_refl w : later w w.
Proof. unfold later. lia. Qed.

Lemma later_trans w1 w2 w3 : later w1 w2 -> later w2 w3 -> later w1 w3.
Proof. unfold later. lia. Qed.

Lemma assign_id_later rqid w : later w (snd (Sondra.assign_id rqid w)).
Proof.
  unfold later, Sondra.assign_id.
  destruct rqid as [r|]; [destruct (r =? 0)|]; cbn; lia.
Qed.

Lemma assign_id_probes rqid w :
  Sondra.probes (snd (Sondra.assign_id rqid w)) = Sondra.probes w
  /\ Sondra.fetches (snd (Sondra.assign_id rqid w)) = Sondra.fetches w.
Proof.
  unfold Sondra.assign_id.
  destruct rqid as [r|]; [destruct (r =? 0)|]; split; reflexivity.
Qed.

(** With a positive counter every id is non-zero: the one that was passed
    if it is truthy, the counter otherwise. *)
Lemma assign_id_nonzero rqid w :
  0 < Sondra.nextDeferredRequestId w -> fst (Sondra.assign_id rqid w) <> 0.
Proof.
  intros Hn. unfold Sondra.assign_id.
  destruct rqid as [r|]; [destruct (r =? 0) eqn:E|]; cbn; lia.
Qed.

(** An id that is passed on is kept: no new one is drawn. *)
Lemma assign_id_kept id w :
  id <> 0 -> Sondra.assign_id (Some id) w = (id, w).
Proof.
  intros H. unfold Sondra.assign_id.
  destruct (id =? 0) eqn:E; [apply Z.eqb_eq in E; contradiction | reflexivity].
Qed.

Section Totality.
Variable lodash_size : omap json -> Z.

Section WithRetry.
Variable retry : string -> Z -> option Z -> Sondra.world -> option Sondra.run.
Variable f : nat.
Hypothesis retry_answers : answers retry f.
Variable this : DC.t.
Variable tc : list DC.field_update.

Lemma on_error_answers a n id error w :
  (List.length (Sondra.probes w) < f)%nat ->
  exists res,
    Sondra.on_error retry this tc a n id error w = Some res
    /\ later w (Sondra.after res).
Proof.
  intros Hw. unfold Sondra.on_error.
  destruct (0 <? Sondra.status_or_zero error);
    [eexists; split; [reflexivity | apply later_refl]|].
  destruct (a =? "defer")%string.
  - destruct (retry_answers
                (if n <? maxTries (DC.robust (DC.merge this tc))
                 then "defer" else "fail") (n + 1) None w Hw)
      as (res & E & L).
    rewrite E. eexists; split; [reflexivity | exact L].
  - destruct (a =? "fail")%string;
      [eexists; split; [reflexivity | apply later_refl]|].
    destruct (a =? "ignore")%string; eexists; split;
      try reflexivity; apply later_refl.
Qed.

Lemma send_answers a n id w :
  (List.length (Sondra.probes w) < f)%nat ->
  exists res,
    Sondra.send lodash_size retry this tc a n id w = Some res
    /\ later w (Sondra.after res).
Proof.
  intros Hw. unfold Sondra.send.
  destruct (Sondra.fetches w) as [|o rest] eqn:Ef.
  - eexists; split; [reflexivity | apply later_refl].
  - set (w' := Sondra.mkWorld (Sondra.nextDeferredRequestId w)
                              (Sondra.probes w) rest).
    assert (Hw' : (List.length (Sondra.probes w') < f)%nat) by exact Hw.
    assert (Hl : later w w') by (unfold later; cbn; lia).
    destruct o as [status [data|error]|error].
    + destruct (rsp_ok status); eexists; split; try reflexivity; exact Hl.
    + destruct (on_error_answers a n id error w' Hw') as (res & E & L).
      rewrite E. eexists; split; [reflexivity | exact (later_trans _ _ _ Hl L)].
    + destruct (on_error_answers a n id error w' Hw') as (res & E & L).
      rewrite E. eexists; split; [reflexivity | exact (later_trans _ _ _ Hl L)].
Qed.

Lemma reprobe_answers a n id error w :
  (List.length (Sondra.probes w) < f)%nat ->
  exists res,
    Sondra.reprobe lodash_size retry this tc a n id error w = Some res
    /\ later w (Sondra.after res).
Proof.
  intros Hw. unfold Sondra.reprobe.
  destruct (retry_answers a n (Some id) w Hw) as (r & E & L).
  rewrite E.
  destruct (Sondra.promise r) eqn:Ep.
  - eexists; split; [reflexivity | exact L].
  - destruct (send_answers a n id (Sondra.after r)) as (res & E' & L');
      [unfold later in L; lia|].
    rewrite E'. eexists; split; [reflexivity | exact (later_trans _ _ _ L L')].
  - eexists; split; [reflexivity | exact L].
Qed.

Lemma executor_answers a n id w :
  (List.length (Sondra.probes w) < S f)%nat ->
  exists res,
    Sondra.executor lodash_size retry this tc a n id w = Some res
    /\ later w (Sondra.after res).
Proof.
  intros Hw. unfold Sondra.executor.
  destruct (Sondra.probes w) as [|p rest] eqn:Ep.
  - eexists; split; [reflexivity | apply later_refl].
  - cbn in Hw.
    set (w' := Sondra.mkWorld (Sondra.nextDeferredRequestId w) rest
                              (Sondra.fetches w)).
    assert (Hw' : (List.length (Sondra.probes w') < f)%nat) by (cbn; lia).
    assert (Hl : later w w') by (unfold later; rewrite Ep; cbn; lia).
    destruct p as [| |error].
    + destruct (reprobe_answers a n id not_online w' Hw') as (res & E & L).
      exists res; split; [exact E | exact (later_trans _ _ _ Hl L)].
    + destruct (send_answers a n id w' Hw') as (res & E & L).
      rewrite E. eexists; split; [reflexivity | exact (later_trans _ _ _ Hl L)].
    + destruct (reprobe_answers a n id error w' Hw') as (res & E & L).
      rewrite E. eexists; split; [reflexivity | exact (later_trans _ _ _ Hl L)].
Qed.

Lemma invocation_answers a n rqid w :
  (List.length (Sondra.probes w) < S f)%nat ->
  exists res,
    Sondra.invocation lodash_size retry this tc a n rqid w = Some res
    /\ later w (Sondra.after res).
Proof.
  intros Hw. unfold Sondra.invocation.
  pose proof (assign_id_later rqid w) as Hl.
  pose proof (proj1 (assign_id_probes rqid w)) as Ep.
  destruct (Sondra.assign_id rqid w) as [id w']. cbn [snd] in Hl, Ep.
  destruct (executor_answers a n id w') as (res & E & L);
    [rewrite Ep; exact Hw|].
  rewrite E. eexists; split; [reflexivity | exact (later_trans _ _ _ Hl L)].
Qed.
End WithRetry.

(** With more fuel than probe outcomes left, [robustCall] returns a run;
    the counter never goes back. *)
Lemma robustCall_answers (fuel : nat) (this : DC.t)
    (tc : list DC.field_update) :
  answers (Sondra.robustCall lodash_size fuel this tc) fuel.
Proof.
  induction fuel as [|fuel IH]; intros a n r w Hw; [inversion Hw|].
  cbn [Sondra.robustCall].
  apply (invocation_answers _ fuel IH); assumption.
Qed.
End Totality.

Lemma prepend_prepend a b r :
  Sondra.prepend a (Sondra.prepend b r) = Sondra.prepend (a ++ b) r.
Proof. destruct r as [r|]; cbn; [now rewrite app_assoc | reflexivity]. Qed.

Lemma prepend_nil r : Sondra.prepend [] r = r.
Proof. destruct r as [[p tr w]|]; reflexivity. Qed.

Lemma unlinked_prepend a r :
  Sondra.unlinked (Sondra.prepend a r) = Sondra.prepend a (Sondra.unlinked r).
Proof. destruct r as [r|]; reflexivity. Qed.

Lemma unlinked_unlinked r :
  Sondra.unlinked (Sondra.unlinked r) = Sondra.unlinked r.
Proof. destruct r as [r|]; reflexivity. Qed.

(** ** The resilient call: application errors *)

(** When the probe succeeds and the physical attempt obtains a response
    with a non-2xx status and a parsable JSON body, the invocation rejects
    its promise with {requestId, url, status, error}, whatever the failure
    policy (any string), the attempt index and the request id it was given:
    it makes that one request, never calls the observer, never waits, never
    re-invokes itself, and leaves the rest of the oracle untouched. *)
Theorem application_error_rejects_at_once
    (lodash_size : omap json -> Z) (fuel : nat) (this : DC.t)
    (tc : list DC.field_update) (actionOnFail : string) (n : Z)
    (rqid : option Z) (next : Z) (ps : list probe_outcome)
    (fs : list fetch_outcome) (status : Z) (data : json) :
  rsp_ok status = false ->
  let w := Sondra.mkWorld next (PingSettled :: ps)
                          (Response status (inl data) :: fs) in
  let id := fst (Sondra.assign_id rqid w) in
  let counter := Sondra.nextDeferredRequestId (snd (Sondra.assign_id rqid w)) in
  let m := DC.merge this tc in
  let rejection := Sondra.mkRejection id (DC.url m) status (VJson data) in
  Sondra.robustCall lodash_size (S fuel) this tc actionOnFail n rqid w
  = Some (Sondra.mkRun
            (Sondra.Rejected rejection)
            [Sondra.EEnter id n actionOnFail;
             Sondra.EPing (Sondra.ping_url this);
             Sondra.EFetch (DC.url m)
                           (snd (Sondra.robust_request lodash_size m));
             Sondra.EReject rejection]
            (Sondra.mkWorld counter ps fs)).
Proof.
  intros Hok w id counter m rejection.
  subst id counter rejection m w.
  cbn [Sondra.robustCall]. unfold Sondra.invocation, Sondra.assign_id.
  destruct rqid as [r|]; [destruct (r =? 0)|];
    cbn; rewrite Hok; reflexivity.
Qed.

Lemma application_error_rejects_at_once_witness :
  rsp_ok 403 = false
  /\ Sondra.robustCall count_entries 1 login credentials "defer" 0 None
       (Sondra.mkWorld 1 [PingSettled] [Response 403 (inl (JStr "denied"))])
     = Some (Sondra.mkRun
               (Sondra.Rejected
                  (Sondra.mkRejection 1 (DC.url login) 403
                                      (VJson (JStr "denied"))))
               [Sondra.EEnter 1 0 "defer";
                Sondra.EPing "http://localhost:5000/ping";
                Sondra.EFetch (DC.url login)
                  [("method", OStr "POST");
                   ("body", OBody [("username", JStr "jefferson");
                                   ("password", JStr "secret")]);
                   ("mode", OStr "cors"); ("compress", OBool true);
                   ("headers", OHeaders [])];
                Sondra.EReject
                  (Sondra.mkRejection 1 (DC.url login) 403
                                      (VJson (JStr "denied")))]
               (Sondra.mkWorld 2 [] [])).
Proof.
  split; [reflexivity|].
  apply (application_error_rejects_at_once count_entries 0 login credentials
           "defer" 0 None 1 [] [] 403 (JStr "denied")).
  reflexivity.
Defined.

(** The resilient tests of the repository: a 403 and a 500 reject without
    a retry; a network that comes back after two offline probes resolves
    the call, under the id it started with. *)
Example resilient_tests :
  option_map Sondra.promise
    (Sondra.robustCall count_entries 1 login credentials "defer" 0 None
       (Sondra.mkWorld 1 [PingSettled] [Response 500 (inl (JStr "error"))]))
  = Some (Sondra.Rejected
            (Sondra.mkRejection 1 (DC.url login) 500 (VJson (JStr "error"))))
  /\ option_map Sondra.promise
       (Sondra.robustCall count_entries 3 login credentials "defer" 0 None
          (Sondra.mkWorld 1 [Offline; Offline; PingSettled]
             (repeat (Response 200 (inl (JStr "token"))) 3)))
     = Some (Sondra.Resolved (Sondra.ResolvedWith 1 (JStr "token"))).
Proof. split; vm_compute; reflexivity. Qed.

(** ** The resilient call: probe failures *)

(** C7. When the probe of an invocation fails (the environment reports no
    connectivity, or the ping request fails), with the counter positive as
    it is from its initial value 1 on, then: the observer is called with
    (requestId, url, error) and the context's retry delay is waited;
    [robustCall] is re-entered, at its probing step, with the same failure
    policy, the same attempt index and the same request id, and no new id
    is drawn; the probe failure itself settles nothing: the promise is
    pending unless the re-entered call resolves, in which case the
    invocation goes on to send its own request. *)
Theorem probe_failure_reenters_probing
    (lodash_size : omap json -> Z) (fuel : nat) (this : DC.t)
    (tc : list DC.field_update) (actionOnFail : string) (n : Z)
    (rqid : option Z) (next : Z) (p : probe_outcome)
    (ps : list probe_outcome) (fs : list fetch_outcome) (error : jserror) :
  probe_error p = Some error ->
  0 < next ->
  (List.length ps < fuel)%nat ->
  let w := Sondra.mkWorld next (p :: ps) fs in
  let id := fst (Sondra.assign_id rqid w) in
  let counter :=
    Sondra.nextDeferredRequestId (snd (Sondra.assign_id rqid w)) in
  let url := DC.url (DC.merge this tc) in
  let retry := Sondra.robustCall lodash_size fuel this tc in
  exists reentry r : Sondra.run,
    (* the re-entered call: same policy, same attempt index, same id *)
    retry actionOnFail n (Some id) (Sondra.mkWorld counter ps fs)
    = Some reentry
    /\ (exists rest, Sondra.trace reentry
                     = Sondra.EEnter id n actionOnFail :: rest)
    (* the invocation whose probe failed *)
    /\ Sondra.robustCall lodash_size (S fuel) this tc actionOnFail n rqid w
       = Some r
    /\ Some r
       = Sondra.prepend
           (Sondra.EEnter id n actionOnFail
              :: ping_events this p
              ++ [Sondra.EObserver id url error;
                  Sondra.EDelay (refetchDelay (DC.robust this))]
              ++ Sondra.trace reentry)
           match Sondra.promise reentry with
           | Sondra.Resolved _ =>
               Sondra.send lodash_size retry this tc actionOnFail n id
                           (Sondra.after reentry)
           | _ => Some (Sondra.mkRun Sondra.Pending [] (Sondra.after reentry))
           end
    /\ ((forall v, Sondra.promise reentry <> Sondra.Resolved v) ->
        Sondra.promise r = Sondra.Pending).
Proof.
  intros Hp Hnext Hfuel w id counter url retry.
  assert (Hid : id <> 0) by (apply assign_id_nonzero; exact Hnext).
  assert (Hw : Sondra.assign_id rqid w
               = (id, Sondra.mkWorld counter (p :: ps) fs)).
  { subst id counter w. unfold Sondra.assign_id.
    destruct rqid as [r|]; [destruct (r =? 0)|]; reflexivity. }
  (* the re-entered call *)
  destruct (robustCall_answers lodash_size fuel this tc actionOnFail n
              (Some id) (Sondra.mkWorld counter ps fs) Hfuel)
    as (reentry & Ere & Lre).
  fold retry in Ere. unfold later in Lre. cbn [Sondra.probes] in Lre.
  assert (Htrace : exists rest,
             Sondra.trace reentry = Sondra.EEnter id n actionOnFail :: rest).
  { subst retry. destruct fuel as [|fuel]; [inversion Hfuel|].
    cbn [Sondra.robustCall] in Ere. unfold Sondra.invocation in Ere.
    rewrite (assign_id_kept id _ Hid) in Ere.
    destruct (Sondra.executor _ _ _ _ _ _ _ _) as [x|]; [|discriminate].
    cbn in Ere. inversion Ere. eexists; reflexivity. }
  (* what follows the re-entered call in the invocation *)
  set (k := match Sondra.promise reentry with
            | Sondra.Resolved _ =>
                Sondra.send lodash_size retry this tc actionOnFail n id
                            (Sondra.after reentry)
            | _ => Some (Sondra.mkRun Sondra.Pending [] (Sondra.after reentry))
            end).
  assert (Hk : exists res, k = Some res
                 /\ ((forall v, Sondra.promise reentry <> Sondra.Resolved v) ->
                     Sondra.promise res = Sondra.Pending)).
  { subst k. destruct (Sondra.promise reentry) as [|v|rj] eqn:Epr.
    - eexists; split; [reflexivity | reflexivity].
    - destruct (send_answers lodash_size retry fuel
                  (robustCall_answers lodash_size fuel this tc) this tc
                  actionOnFail n id (Sondra.after reentry)) as (res & E & _);
        [lia|].
      exists res; split; [exact E|]. intros H. now destruct (H v).
    - eexists; split; [reflexivity | reflexivity]. }
  destruct Hk as (res & Ek & Hpending).
  assert (Hunfold :
            Sondra.robustCall lodash_size (S fuel) this tc actionOnFail n rqid w
            = Sondra.prepend
                (Sondra.EEnter id n actionOnFail
                   :: ping_events this p
                   ++ [Sondra.EObserver id url error;
                       Sondra.EDelay (refetchDelay (DC.robust this))]
                   ++ Sondra.trace reentry) k).
  { cbn [Sondra.robustCall]. unfold Sondra.invocation. rewrite Hw.
    unfold Sondra.executor. cbn [Sondra.probes Sondra.nextDeferredRequestId
                                 Sondra.fetches].
    fold retry.
    assert (Hre : forall e,
               Sondra.reprobe lodash_size retry this tc actionOnFail n id e
                 (Sondra.mkWorld counter ps fs)
               = Sondra.prepend
                   ([Sondra.EObserver id url e;
                     Sondra.EDelay (refetchDelay (DC.robust this))]
                    ++ Sondra.trace reentry) k).
    { intros e. unfold Sondra.reprobe. rewrite Ere. subst k.
      destruct (Sondra.promise reentry).
      - cbn. now rewrite app_nil_r.
      - now rewrite prepend_prepend.
      - cbn. now rewrite app_nil_r. }
    destruct p as [| |e]; cbn in Hp; inversion Hp; subst;
      rewrite Hre, !prepend_prepend; reflexivity. }
  exists reentry.
  rewrite Hunfold. fold k. rewrite Ek. cbn [Sondra.prepend].
  eexists. split; [exact Ere|]. split; [exact Htrace|].
  split; [reflexivity|]. split; [reflexivity|].
  cbn. exact Hpending.
Qed.

Lemma probe_failure_reenters_probing_witness :
  probe_error Offline = Some not_online
  /\ 0 < 1
  /\ (List.length [PingSettled] < 2)%nat
  /\ exists reentry r : Sondra.run,
      Sondra.robustCall count_entries 2 login credentials "defer" 0 (Some 1)
        (Sondra.mkWorld 2 [PingSettled] [Response 200 (inl (JStr "token"))])
      = Some reentry
      /\ (exists rest, Sondra.trace reentry = Sondra.EEnter 1 0 "defer" :: rest)
      /\ Sondra.robustCall count_entries 3 login credentials "defer" 0 None
           (Sondra.mkWorld 1 [Offline; PingSettled]
                           [Response 200 (inl (JStr "token"))])
         = Some r
      /\ Some r
         = Sondra.prepend
             (Sondra.EEnter 1 0 "defer"
                :: ping_events login Offline
                ++ [Sondra.EObserver 1 (DC.url (DC.merge login credentials))
                      not_online;
                    Sondra.EDelay (refetchDelay (DC.robust login))]
                ++ Sondra.trace reentry)
             match Sondra.promise reentry with
             | Sondra.Resolved _ =>
                 Sondra.send count_entries
                   (Sondra.robustCall count_entries 2 login credentials)
                   login credentials "defer" 0 1 (Sondra.after reentry)
             | _ => Some (Sondra.mkRun Sondra.Pending [] (Sondra.after reentry))
             end
      /\ ((forall v, Sondra.promise reentry <> Sondra.Resolved v) ->
          Sondra.promise r = Sondra.Pending).
Proof.
  split; [reflexivity|]. split; [lia|]. split; [simpl; lia|].
  apply (probe_failure_reenters_probing count_entries 2 login credentials
           "defer" 0 None 1 Offline [PingSettled]
           [Response 200 (inl (JStr "token"))] not_online).
  - reflexivity.
  - lia.
  - simpl; lia.
Defined.

(** ** The resilient call: transport failures under the defer policy *)

Lemma attempts_app a b : attempts (a ++ b) = (attempts a + attempts b)%nat.
Proof. unfold attempts. now rewrite filter_app, length_app. Qed.

Lemma observer_calls_app a b :
  observer_calls (a ++ b) = (observer_calls a + observer_calls b)%nat.
Proof. unfold observer_calls. now rewrite filter_app, length_app. Qed.

Section Defer.
Variable lodash_size : omap json -> Z.
Variable this : DC.t.
Variable tc : list DC.field_update.
Variable e : jserror.
Hypothesis no_status : err_status e = None.

Let limit := maxTries (DC.robust (DC.merge this tc)).
Let url := DC.url (DC.merge this tc).

Lemma attempts_failed_attempts k id n :
  attempts (failed_attempts lodash_size this tc e k id n) = k.
Proof.
  revert id n. induction k as [|k IH]; intros id n; [reflexivity|].
  cbn [failed_attempts]. rewrite attempts_app, IH. reflexivity.
Qed.

Lemma observer_calls_failed_attempts k id n :
  observer_calls (failed_attempts lodash_size this tc e k id n) = k.
Proof.
  revert id n. induction k as [|k IH]; intros id n; [reflexivity|].
  cbn [failed_attempts]. rewrite observer_calls_app, IH. reflexivity.
Qed.

Lemma failed_attempts_snoc k :
  forall id n,
    failed_attempts lodash_size this tc e (S k) id n
    = failed_attempts lodash_size this tc e k id n
        ++ failed_attempt lodash_size this tc e
             (id + Z.of_nat k) (n + Z.of_nat k).
Proof.
  induction k as [|k IH]; intros id n.
  - cbn [failed_attempts Z.of_nat]. now rewrite !Z.add_0_r, app_nil_r.
  - change (failed_attempts lodash_size this tc e (S (S k)) id n)
      with (failed_attempt lodash_size this tc e id n
              ++ failed_attempts lodash_size this tc e (S k) (id + 1) (n + 1)).
    rewrite IH. cbn [failed_attempts]. rewrite <- app_assoc.
    replace (id + 1 + Z.of_nat k) with (id + Z.of_nat (S k)) by lia.
    replace (n + 1 + Z.of_nat k) with (n + Z.of_nat (S k)) by lia.
    reflexivity.
Qed.

Lemma status_zero : Sondra.status_or_zero e = 0.
Proof. unfold Sondra.status_or_zero. now rewrite no_status. Qed.

(** One response-less failure under defer: the promise of the invocation
    is left pending, and [robustCall] is invoked again with the index plus
    one and without a request id. *)
Lemma defer_step fuel n next ps fs :
  Sondra.robustCall lodash_size (S fuel) this tc "defer" n None
    (Sondra.mkWorld next (PingSettled :: ps) (NoResponse e :: fs))
  = Sondra.prepend (failed_attempt lodash_size this tc e next n)
      (Sondra.unlinked
         (Sondra.robustCall lodash_size fuel this tc
            (if n <? limit then "defer" else "fail") (n + 1) None
            (Sondra.mkWorld (next + 1) ps fs))).
Proof.
  cbn [Sondra.robustCall]. unfold Sondra.invocation, Sondra.assign_id.
  cbn. unfold Sondra.on_error. rewrite status_zero. cbn.
  rewrite !prepend_prepend. reflexivity.
Qed.

Lemma fail_step fuel n next ps fs :
  let rejection := Sondra.mkRejection next url 0 (VError e) in
  Sondra.robustCall lodash_size (S fuel) this tc "fail" n None
    (Sondra.mkWorld next (PingSettled :: ps) (NoResponse e :: fs))
  = Some (Sondra.mkRun (Sondra.Rejected rejection)
            (last_attempt lodash_size this tc next n "fail"
                          (Sondra.EReject rejection))
            (Sondra.mkWorld (next + 1) ps fs)).
Proof.
  cbn [Sondra.robustCall]. unfold Sondra.invocation, Sondra.assign_id.
  cbn. unfold Sondra.on_error. rewrite status_zero. reflexivity.
Qed.

Lemma response_step fuel policy n next ps fs status data :
  Sondra.robustCall lodash_size (S fuel) this tc policy n None
    (Sondra.mkWorld next (PingSettled :: ps) (Response status (inl data) :: fs))
  = Some
      (if rsp_ok status then
         Sondra.mkRun
           (Sondra.Resolved (Sondra.ResolvedWith next data))
           (last_attempt lodash_size this tc next n policy
              (Sondra.EResolve (Sondra.ResolvedWith next data)))
           (Sondra.mkWorld (next + 1) ps fs)
       else
         Sondra.mkRun
           (Sondra.Rejected (Sondra.mkRejection next url status (VJson data)))
           (last_attempt lodash_size this tc next n policy
              (Sondra.EReject
                 (Sondra.mkRejection next url status (VJson data))))
           (Sondra.mkWorld (next + 1) ps fs)).
Proof.
  cbn [Sondra.robustCall]. unfold Sondra.invocation, Sondra.assign_id.
  cbn. destruct (rsp_ok status); reflexivity.
Qed.

(** [k] response-less failures in a row, all below the limit. *)
Lemma defer_chain k :
  forall fuel n next ps fs,
    n + Z.of_nat k <= limit ->
    Sondra.robustCall lodash_size (k + fuel) this tc "defer" n None
      (Sondra.mkWorld next (repeat PingSettled k ++ ps)
                      (repeat (NoResponse e) k ++ fs))
    = Sondra.prepend (failed_attempts lodash_size this tc e k next n)
        ((match k with O => fun r => r | S _ => Sondra.unlinked end)
           (Sondra.robustCall lodash_size fuel this tc "defer"
              (n + Z.of_nat k) None
              (Sondra.mkWorld (next + Z.of_nat k) ps fs))).
Proof.
  induction k as [|k IH]; intros fuel n next ps fs Hk.
  - cbn [repeat app failed_attempts Nat.add Z.of_nat].
    rewrite prepend_nil, !Z.add_0_r. reflexivity.
  - cbn [repeat app failed_attempts Nat.add].
    rewrite defer_step.
    assert (Hlt : (n <? limit) = true) by (apply Z.ltb_lt; lia).
    rewrite Hlt, IH by lia.
    replace (n + 1 + Z.of_nat k) with (n + Z.of_nat (S k)) by lia.
    replace (next + 1 + Z.of_nat k) with (next + Z.of_nat (S k)) by lia.
    rewrite unlinked_prepend, prepend_prepend.
    destruct k; [reflexivity | now rewrite unlinked_unlinked].
Qed.
End Defer.

(** C1. A logical call under defer whose first physical attempt gets no
    response and whose second attempt gets a response: the first attempt
    runs under the id drawn from the counter and hands that id to the
    observer; the retry is invoked without an id, draws the next one, and
    the terminal resolution or rejection carries that second id, while the
    promise of the first invocation stays pending. *)
Theorem transport_retry_draws_a_new_id
    (lodash_size : omap json -> Z) (fuel : nat) (this : DC.t)
    (tc : list DC.field_update) (message : string) (next : Z)
    (ps : list probe_outcome) (fs : list fetch_outcome)
    (status : Z) (data : json) :
  let e := mkError message None in
  let m := DC.merge this tc in
  let url := DC.url m in
  let policy := if 0 <? maxTries (DC.robust m) then "defer" else "fail" in
  let settlement :=
    if rsp_ok status
    then Sondra.EResolve (Sondra.ResolvedWith (next + 1) data)
    else Sondra.EReject
           (Sondra.mkRejection (next + 1) url status (VJson data)) in
  Sondra.robustCall lodash_size (S (S fuel)) this tc "defer" 0 None
    (Sondra.mkWorld next (PingSettled :: PingSettled :: ps)
       (NoResponse e :: Response status (inl data) :: fs))
  = Some (Sondra.mkRun Sondra.Pending
            ([Sondra.EEnter next 0 "defer";
              Sondra.EPing (Sondra.ping_url this);
              Sondra.EFetch url (snd (Sondra.robust_request lodash_size m));
              Sondra.EObserver next url e;
              Sondra.EDelay (refetchDelay (DC.robust m));
              Sondra.EEnter (next + 1) 1 policy;
              Sondra.EPing (Sondra.ping_url this);
              Sondra.EFetch url (snd (Sondra.robust_request lodash_size m));
              settlement])
            (Sondra.mkWorld (next + 2) ps fs))
  /\ next + 1 <> next.
Proof.
  intros e m url policy settlement. split; [|lia].
  rewrite (defer_step lodash_size this tc e eq_refl).
  rewrite response_step.
  subst settlement policy url m.
  replace (next + 1 + 1) with (next + 2) by lia.
  destruct (rsp_ok status); reflexivity.
Qed.

(** C2. Under defer, with maxTries - 1 >= 1 response-less failures followed
    by a 2xx response: the observer is called exactly maxTries - 1 times,
    but the promise returned by the original invocation is never settled;
    the data is resolved on the promise of the last nested invocation, under
    the id that invocation drew, not under the id of the logical call. *)
Theorem failures_then_success_leave_the_call_pending
    (lodash_size : omap json -> Z) (this : DC.t) (tc : list DC.field_update)
    (e : jserror) (k extra : nat) (next : Z) (ps : list probe_outcome)
    (fs : list fetch_outcome) (status : Z) (data : json) :
  err_status e = None ->
  rsp_ok status = true ->
  maxTries (DC.robust (DC.merge this tc)) - 1 = Z.of_nat (S k) ->
  let failures := S k in
  let last_id := next + Z.of_nat failures in
  exists r,
    Sondra.robustCall lodash_size (S failures + extra) this tc "defer" 0 None
      (Sondra.mkWorld next (repeat PingSettled (S failures) ++ ps)
         (repeat (NoResponse e) failures ++ Response status (inl data) :: fs))
    = Some r
    /\ Sondra.promise r = Sondra.Pending
    /\ observer_calls (Sondra.trace r) = failures
    /\ attempts (Sondra.trace r) = S failures
    /\ Sondra.trace r
       = (failed_attempts lodash_size this tc e failures next 0
            ++ last_attempt lodash_size this tc last_id (Z.of_nat failures)
                 "defer"
                 (Sondra.EResolve (Sondra.ResolvedWith last_id data)))%list
    /\ last_id <> next
    /\ Sondra.after r = Sondra.mkWorld (last_id + 1) ps fs.
Proof.
  intros He Hok Hmax failures last_id.
  replace (repeat PingSettled (S failures) ++ ps)
    with (repeat PingSettled failures ++ PingSettled :: ps)
    by (cbn [repeat]; rewrite (repeat_cons failures PingSettled),
          <- app_assoc; reflexivity).
  rewrite Nat.add_succ_comm.
  rewrite (defer_chain lodash_size this tc e He failures) by lia.
  rewrite response_step, Hok.
  subst failures. cbn [Sondra.unlinked Sondra.prepend Sondra.trace
                       Sondra.promise Sondra.after].
  eexists. split; [reflexivity|].
  cbn [Sondra.promise Sondra.trace Sondra.after].
  split; [reflexivity|].
  rewrite observer_calls_app, attempts_app,
    observer_calls_failed_attempts, attempts_failed_attempts.
  split; [cbn; lia|]. split; [cbn; lia|].
  split; [reflexivity|]. split; [subst last_id; lia | reflexivity].
Qed.

(** C3. Under defer with maxTries = M >= 0, when every physical attempt
    fails without a response: attempts 0 .. M run under defer (the policy
    handed to the next invocation is computed from the current index,
    [_n < maxTries]), attempt M + 1 runs under fail and rejects.  That is
    M + 2 physical attempts and M + 1 observer calls; the rejection settles
    the promise of the last nested invocation, the promise of the original
    invocation stays pending. *)
Theorem every_attempt_fails_under_defer
    (lodash_size : omap json -> Z) (this : DC.t) (tc : list DC.field_update)
    (e : jserror) (M extra : nat) (next : Z) (ps : list probe_outcome)
    (fs : list fetch_outcome) :
  err_status e = None ->
  maxTries (DC.robust (DC.merge this tc)) = Z.of_nat M ->
  let last_id := next + Z.of_nat M + 1 in
  let rejection :=
    Sondra.mkRejection last_id (DC.url (DC.merge this tc)) 0 (VError e) in
  exists r,
    Sondra.robustCall lodash_size (M + 2 + extra) this tc "defer" 0 None
      (Sondra.mkWorld next (repeat PingSettled (M + 2) ++ ps)
                      (repeat (NoResponse e) (M + 2) ++ fs))
    = Some r
    /\ Sondra.trace r
       = (failed_attempts lodash_size this tc e (S M) next 0
            ++ last_attempt lodash_size this tc last_id (Z.of_nat M + 1) "fail"
                 (Sondra.EReject rejection))%list
    /\ attempts (Sondra.trace r) = (M + 2)%nat
    /\ observer_calls (Sondra.trace r) = (M + 1)%nat
    /\ Sondra.promise r = Sondra.Pending
    /\ Sondra.after r = Sondra.mkWorld (last_id + 1) ps fs.
Proof.
  intros He Hmax last_id rejection.
  rewrite !repeat_app, <- !app_assoc, <- Nat.add_assoc.
  rewrite (defer_chain lodash_size this tc e He M) by lia.
  cbn [repeat app Nat.add].
  rewrite (defer_step lodash_size this tc e He).
  assert (Hge : (0 + Z.of_nat M <? maxTries (DC.robust (DC.merge this tc)))
                = false) by (apply Z.ltb_ge; lia).
  rewrite Hge, (fail_step lodash_size this tc e He).
  assert (Hrun :
    forall f : option Sondra.run -> option Sondra.run,
      (f = (fun r => r) \/ f = Sondra.unlinked) ->
      exists r,
        Sondra.prepend (failed_attempts lodash_size this tc e M next 0)
          (f (Sondra.prepend
                (failed_attempt lodash_size this tc e
                   (next + Z.of_nat M) (0 + Z.of_nat M))
                (Sondra.unlinked
                   (Some (Sondra.mkRun
                      (Sondra.Rejected
                         (Sondra.mkRejection (next + Z.of_nat M + 1)
                            (DC.url (DC.merge this tc)) 0 (VError e)))
                      (last_attempt lodash_size this tc
                         (next + Z.of_nat M + 1) (0 + Z.of_nat M + 1) "fail"
                         (Sondra.EReject
                            (Sondra.mkRejection (next + Z.of_nat M + 1)
                               (DC.url (DC.merge this tc)) 0 (VError e))))
                      (Sondra.mkWorld (next + Z.of_nat M + 1 + 1) ps fs))))))
        = Some r
        /\ Sondra.trace r
           = (failed_attempts lodash_size this tc e (S M) next 0
                ++ last_attempt lodash_size this tc last_id (Z.of_nat M + 1)
                     "fail" (Sondra.EReject rejection))%list
        /\ Sondra.promise r = Sondra.Pending
        /\ Sondra.after r = Sondra.mkWorld (last_id + 1) ps fs).
  { intros f [-> | ->];
      (eexists; split; [reflexivity|];
       cbn [Sondra.unlinked Sondra.prepend Sondra.trace Sondra.promise
            Sondra.after];
       rewrite (failed_attempts_snoc lodash_size this tc e), <- app_assoc;
       subst last_id rejection; rewrite !Z.add_0_l;
       repeat split; reflexivity). }
  destruct (Hrun (match M with O => fun r => r | S _ => Sondra.unlinked end))
    as (r & Er & Htr & Hp & Ha); [destruct M; auto|].
  exists r. split; [exact Er|]. split; [exact Htr|].
  rewrite Htr, attempts_app, observer_calls_app,
    attempts_failed_attempts, observer_calls_failed_attempts.
  split; [cbn; lia|]. split; [cbn; lia|]. split; assumption.
Qed.

Lemma failures_then_success_leave_the_call_pending_witness :
  err_status failed_to_fetch = None
  /\ rsp_ok 200 = true
  /\ maxTries (DC.robust (DC.merge login credentials)) - 1 = Z.of_nat 9
  /\ exists r,
      Sondra.robustCall count_entries (S 9 + 0) login credentials "defer" 0
        None
        (Sondra.mkWorld 1 (repeat PingSettled (S 9) ++ [])
           (repeat (NoResponse failed_to_fetch) 9
              ++ Response 200 (inl (JStr "token")) :: []))
      = Some r
      /\ Sondra.promise r = Sondra.Pending
      /\ observer_calls (Sondra.trace r) = 9%nat
      /\ attempts (Sondra.trace r) = 10%nat
      /\ Sondra.trace r
         = failed_attempts count_entries login credentials failed_to_fetch
             9 1 0
             ++ last_attempt count_entries login credentials
                  (1 + Z.of_nat 9) (Z.of_nat 9) "defer"
                  (Sondra.EResolve
                     (Sondra.ResolvedWith (1 + Z.of_nat 9) (JStr "token")))
      /\ 1 + Z.of_nat 9 <> 1
      /\ Sondra.after r = Sondra.mkWorld (1 + Z.of_nat 9 + 1) [] [].
Proof.
  split; [reflexivity|]. split; [reflexivity|]. split; [reflexivity|].
  apply (failures_then_success_leave_the_call_pending count_entries login
           credentials failed_to_fetch 8 0 1 [] [] 200 (JStr "token"));
    reflexivity.
Defined.

Lemma every_attempt_fails_under_defer_witness :
  err_status failed_to_fetch = None
  /\ maxTries (DC.robust (DC.merge login credentials)) = Z.of_nat 10
  /\ exists r,
      Sondra.robustCall count_entries (10 + 2 + 0) login credentials "defer"
        0 None
        (Sondra.mkWorld 1 (repeat PingSettled (10 + 2) ++ [])
                        (repeat (NoResponse failed_to_fetch) (10 + 2) ++ []))
      = Some r
      /\ Sondra.trace r
         = failed_attempts count_entries login credentials failed_to_fetch
             (S 10) 1 0
             ++ last_attempt count_entries login credentials
                  (1 + Z.of_nat 10 + 1) (Z.of_nat 10 + 1) "fail"
                  (Sondra.EReject
                     (Sondra.mkRejection (1 + Z.of_nat 10 + 1)
                        (DC.url (DC.merge login credentials)) 0
                        (VError failed_to_fetch)))
      /\ attempts (Sondra.trace r) = (10 + 2)%nat
      /\ observer_calls (Sondra.trace r) = (10 + 1)%nat
      /\ Sondra.promise r = Sondra.Pending
      /\ Sondra.after r = Sondra.mkWorld (1 + Z.of_nat 10 + 1 + 1) [] [].
Proof.
  split; [reflexivity|]. split; [reflexivity|].
  apply (every_attempt_fails_under_defer count_entries login credentials
           failed_to_fetch 10 0 1 [] []); reflexivity.
Defined.

(** The same two runs, evaluated: twelve requests for maxTries = 10, and a
    resolution under id 10 for a call that was given id 1. *)
Example default_limit_runs :
  option_map (fun r => (Sondra.promise r, attempts (Sondra.trace r),
                        Sondra.nextDeferredRequestId (Sondra.after r)))
    (Sondra.robustCall count_entries 20 login credentials "defer" 0 None
       (Sondra.mkWorld 1 (repeat PingSettled 20)
                       (repeat (NoResponse failed_to_fetch) 20)))
  = Some (Sondra.Pending, 12%nat, 13)
  /\ option_map (fun r => (Sondra.promise r, last (Sondra.trace r)
                                                  (Sondra.EDelay 0)))
       (Sondra.robustCall count_entries 20 login credentials "defer" 0 None
          (Sondra.mkWorld 1 (repeat PingSettled 20)
             (repeat (NoResponse failed_to_fetch) 9
                ++ [Response 200 (inl (JStr "token"))])))
     = Some (Sondra.Pending,
             Sondra.EResolve (Sondra.ResolvedWith 10 (JStr "token"))).
Proof. split; vm_compute; reflexivity. Qed.

(** ** The single-attempt call *)

(** C5. What the promise chain of [call] settles with.  A 2xx response
    with a parsable body resolves with that body, and no response at all
    rejects with the pair (0, raw error).  A response with a failure status
    is first rejected with the pair (status, parsed body), and that
    rejection then runs through the trailing catch-all handler as well: the
    caller receives the pair (0, (status, parsed body)). *)
Theorem call_wraps_the_application_error
    (status : Z) (parsed : json) (e : jserror) :
  Sondra.call_settle (Response status (inl parsed))
  = (if rsp_ok status then Fulfilled parsed
     else Failed (VPair 0 (VPair status (VJson parsed))))
  /\ Sondra.call_settle (NoResponse e) = Failed (VPair 0 (VError e))
  /\ Sondra.call_settle (Response 403 (inl parsed))
     <> Failed (VPair 403 (VJson parsed)).
Proof.
  unfold Sondra.call_settle. cbn.
  split; [destruct (rsp_ok status); reflexivity|].
  split; [reflexivity | discriminate].
Qed.

(** ** The request of a resilient call *)

Lemma forget_set (u : DC.field_update) (c : DC.t) :
  forget_querySet (DC.set u c) = forget_querySet (DC.set u (forget_querySet c)).
Proof.
  destruct c as [pr ho po mo co ur bp he ao rm su ap cl dc me pa bo qs ai rb].
  destruct u; reflexivity.
Qed.

Lemma forget_merge (o : list DC.field_update) :
  forall c,
    forget_querySet (DC.merge c o)
    = forget_querySet (DC.merge (forget_querySet c) o).
Proof.
  unfold DC.merge.
  induction o as [|u o IH]; intros c; cbn [fold_left].
  - destruct c; reflexivity.
  - rewrite IH, forget_set, <- IH. reflexivity.
Qed.

Lemma forget_setQuerySet (qs : QuerySet.t) (c : DC.t) :
  forget_querySet (DC.set (DC.SetQuerySet qs) c) = forget_querySet c.
Proof. destruct c; reflexivity. Qed.

Lemma robust_request_forget lodash_size (m : DC.t) :
  Sondra.robust_request lodash_size m
  = Sondra.robust_request lodash_size (forget_querySet m).
Proof. destruct m; reflexivity. Qed.

Lemma url_forget (m : DC.t) : DC.url m = DC.url (forget_querySet m).
Proof. destruct m; reflexivity. Qed.

Lemma robust_forget (m : DC.t) : DC.robust m = DC.robust (forget_querySet m).
Proof. destruct m; reflexivity. Qed.

Lemma ping_url_forget (m : DC.t) :
  Sondra.ping_url m = Sondra.ping_url (forget_querySet m).
Proof. destruct m; reflexivity. Qed.

(** An invocation reads [this] and the merged context only through fields
    other than [querySet]. *)
Lemma invocation_forget lodash_size retry retry' this this' tc a n rqid w :
  (forall a n r w, retry a n r w = retry' a n r w) ->
  forget_querySet this = forget_querySet this' ->
  Sondra.invocation lodash_size retry this tc a n rqid w
  = Sondra.invocation lodash_size retry' this' tc a n rqid w.
Proof.
  intros Hretry Hthis.
  assert (Hm : forget_querySet (DC.merge this tc)
               = forget_querySet (DC.merge this' tc))
    by (rewrite forget_merge, Hthis, <- forget_merge; reflexivity).
  assert (Hurl : DC.url (DC.merge this tc) = DC.url (DC.merge this' tc))
    by (rewrite url_forget, Hm, <- url_forget; reflexivity).
  assert (Hrob : DC.robust (DC.merge this tc) = DC.robust (DC.merge this' tc))
    by (rewrite robust_forget, Hm, <- robust_forget; reflexivity).
  assert (Hreq : Sondra.robust_request lodash_size (DC.merge this tc)
                 = Sondra.robust_request lodash_size (DC.merge this' tc))
    by (rewrite robust_request_forget, Hm, <- robust_request_forget;
        reflexivity).
  assert (Hping : Sondra.ping_url this = Sondra.ping_url this')
    by (rewrite ping_url_forget, Hthis, <- ping_url_forget; reflexivity).
  assert (Hdelay : DC.robust this = DC.robust this')
    by (rewrite robust_forget, Hthis, <- robust_forget; reflexivity).
  assert (Herr : forall id e w,
             Sondra.on_error retry this tc a n id e w
             = Sondra.on_error retry' this' tc a n id e w).
  { intros id e w0. unfold Sondra.on_error.
    rewrite Hurl, Hrob, Hretry. reflexivity. }
  assert (Hsend : forall id w,
             Sondra.send lodash_size retry this tc a n id w
             = Sondra.send lodash_size retry' this' tc a n id w).
  { intros id w0. unfold Sondra.send. rewrite Hurl, Hreq.
    destruct (Sondra.fetches w0) as [|[status [data|e]|e] rest];
      try reflexivity; now rewrite Herr. }
  assert (Hre : forall id e w,
             Sondra.reprobe lodash_size retry this tc a n id e w
             = Sondra.reprobe lodash_size retry' this' tc a n id e w).
  { intros id e w0. unfold Sondra.reprobe.
    rewrite Hurl, Hdelay, Hretry.
    destruct (retry' a n (Some id) w0) as [r|]; [|reflexivity].
    destruct (Sondra.promise r); try reflexivity. now rewrite Hsend. }
  unfold Sondra.invocation.
  destruct (Sondra.assign_id rqid w) as [id w0].
  unfold Sondra.executor. rewrite Hping.
  destruct (Sondra.probes w0) as [|[| |e] rest]; try reflexivity;
    now rewrite ?Hre, ?Hsend.
Qed.

Lemma robustCall_forget lodash_size fuel :
  forall this this' tc a n rqid w,
    forget_querySet this = forget_querySet this' ->
    Sondra.robustCall lodash_size fuel this tc a n rqid w
    = Sondra.robustCall lodash_size fuel this' tc a n rqid w.
Proof.
  induction fuel as [|fuel IH]; intros this this' tc a n rqid w H;
    [reflexivity|].
  cbn [Sondra.robustCall].
  apply invocation_forget; [|exact H].
  intros a' n' r' w'. now apply IH.
Qed.

(** C10. The request of a resilient call does not depend on the attached
    QuerySet: [requestUrl] and [requestOptions] are the same for two contexts
    that differ only there, the query of a GET is the body fields, the
    payload of another verb is [null] or the body fields, and the whole run
    of [robustCall] is the same.  [call] does render the QuerySet into its
    request. *)
Theorem resilient_request_ignores_the_querySet
    (lodash_size : omap json -> Z) (this : DC.t) (qs : QuerySet.t)
    (tc : list DC.field_update) :
  let this' := DC.set (DC.SetQuerySet qs) this in
  let m := DC.merge this tc in
  Sondra.robust_request lodash_size (DC.merge this' tc)
  = Sondra.robust_request lodash_size m
  /\ ru_query (fst (Sondra.robust_request lodash_size m))
     = (if (DC.requestMethod m =? "GET")%string then Some (DC.body m) else None)
  /\ omap_get "body" (snd (Sondra.robust_request lodash_size m))
     = (if (DC.requestMethod m =? "GET")%string
        then omap_get "body"
               (map (fun kv => (fst kv, OJson (snd kv)))
                    (DC.additionalRequestOptions m))
        else Some (if lodash_size (DC.body m) =? 0 then ONull
                   else OBody (DC.body m)))
  /\ (forall fuel actionOnFail n rqid w,
         Sondra.robustCall lodash_size fuel this' tc actionOnFail n rqid w
         = Sondra.robustCall lodash_size fuel this tc actionOnFail n rqid w)
  /\ Sondra.call_request
       (DC.set (DC.SetQuerySet (QuerySet.limit (JNum 5) QuerySet.new))
               Sondra.new) []
     <> Sondra.call_request Sondra.new []
  /\ Sondra.call_request
       (DC.set (DC.SetQuerySet (QuerySet.limit (JNum 5) QuerySet.new))
               Sondra.new) [DC.SetRequestMethod "POST"]
     <> Sondra.call_request Sondra.new [DC.SetRequestMethod "POST"].
Proof.
  intros this' m.
  assert (Hthis : forget_querySet this' = forget_querySet this)
    by apply forget_setQuerySet.
  split.
  { rewrite robust_request_forget, forget_merge, Hthis, <- forget_merge,
      <- robust_request_forget. reflexivity. }
  split.
  { unfold Sondra.robust_request.
    destruct (DC.requestMethod m =? "GET")%string; reflexivity. }
  split.
  { unfold Sondra.robust_request, omap_merge.
    destruct (DC.requestMethod m =? "GET")%string; cbn [negb snd fold_left fst].
    - rewrite !omap_get_set_other by reflexivity. reflexivity.
    - rewrite !omap_get_set_other by reflexivity.
      apply omap_get_set_same. }
  split.
  { intros. now apply robustCall_forget. }
  split; intros H; vm_compute in H; discriminate H.
Qed.

(** * Further properties *)

(** ** Ordered maps *)

Lemma omap_get_app {V : Type} (k : string) (a b : omap V) :
  omap_get k (a ++ b)
  = match omap_get k a with Some v => Some v | None => omap_get k b end.
Proof.
  induction a as [|[k' v'] a IH]; cbn; [reflexivity|].
  destruct (k' =? k)%string; [reflexivity | exact IH].
Qed.

Lemma omap_set_set {V : Type} (k : string) (v1 v2 : V) (m : omap V) :
  omap_set k v2 (omap_set k v1 m) = omap_set k v2 m.
Proof.
  induction m as [|[k' v'] m IH]; cbn.
  - now rewrite String.eqb_refl.
  - destruct (k' =? k)%string eqn:E; cbn.
    + now rewrite String.eqb_refl.
    + now rewrite E, IH.
Qed.

Lemma omap_get_set {V : Type} (k k0 : string) (v : V) (m : omap V) :
  omap_get k (omap_set k0 v m)
  = if (k0 =? k)%string then Some v else omap_get k m.
Proof.
  destruct (k0 =? k)%string eqn:E.
  - apply String.eqb_eq in E. subst. apply omap_get_set_same.
  - now apply omap_get_set_other.
Qed.

Lemma omap_get_map {V W : Type} (f : V -> W) (k : string) (m : omap V) :
  omap_get k (map (fun kv => (fst kv, f (snd kv))) m)
  = option_map f (omap_get k m).
Proof.
  induction m as [|[k' v'] m IH]; cbn; [reflexivity|].
  destruct (k' =? k)%string; [reflexivity | exact IH].
Qed.

(** Lookup after a merge: the bindings of [o] first, then those of [m]. *)
Lemma omap_get_merge {V : Type} (k : string) (o : omap V) :
  forall m,
    omap_get k (omap_merge m o)
    = match omap_get k (omap_merge [] o) with
      | Some v => Some v
      | None => omap_get k m
      end.
Proof.
  unfold omap_merge.
  induction o as [|[k0 v0] o IH]; intros m; cbn [fold_left fst snd].
  - reflexivity.
  - rewrite IH. rewrite (IH (omap_set k0 v0 [])).
    match goal with
    | |- context [omap_get k (fold_left ?f o [])] =>
        destruct (omap_get k (fold_left f o []))
    end; [reflexivity|].
    rewrite omap_get_set. cbn [omap_set omap_get].
    destruct (k0 =? k)%string; reflexivity.
Qed.

Lemma omap_merge_fresh {V : Type} (o : omap V) :
  forall m,
    NoDup (map fst o) ->
    (forall k, In k (map fst o) -> omap_has k m = false) ->
    omap_merge m o = m ++ o.
Proof.
  unfold omap_merge.
  induction o as [|[k0 v0] o IH]; intros m Hnd Hfresh; cbn [fold_left fst snd].
  - now rewrite app_nil_r.
  - cbn in Hnd. inversion Hnd as [|? ? Hnotin Hnd']; subst.
    rewrite omap_set_fresh by (apply Hfresh; now left).
    rewrite IH; [now rewrite <- app_assoc| exact Hnd'|].
    intros k Hk. unfold omap_has. rewrite omap_get_app.
    specialize (Hfresh k (or_intror Hk)). unfold omap_has in Hfresh.
    destruct (omap_get k m); [discriminate|]. cbn.
    destruct (k0 =? k)%string eqn:E; [|reflexivity].
    apply String.eqb_eq in E. subst. contradiction.
Qed.

Lemma omap_get_pick {V W : Type} (f : V -> W) (m : omap V) (k : string)
    (ps : list string) :
  omap_get k (pick_from f m ps)
  = if is_in k ps then option_map f (omap_get k m) else None.
Proof.
  unfold pick_from, is_in.
  induction ps as [|p ps IH]; cbn [flat_map existsb]; [reflexivity|].
  rewrite omap_get_app, IH.
  destruct (p =? k)%string eqn:E.
  - apply String.eqb_eq in E. subst p.
    destruct (omap_get k m); cbn; [now rewrite String.eqb_refl|].
    destruct (existsb _ ps); reflexivity.
  - destruct (omap_get p m); cbn; [now rewrite E|reflexivity].
Qed.

Lemma keys_of_pick {V W : Type} (f : V -> W) (m : omap V) (ps : list string) :
  map fst (pick_from f m ps) = filter (fun p => omap_has p m) ps.
Proof.
  unfold pick_from, omap_has.
  induction ps as [|p ps IH]; cbn [flat_map filter]; [reflexivity|].
  rewrite map_app, IH. destruct (omap_get p m); reflexivity.
Qed.

Lemma fold_pick {V W : Type} (f : V -> W) (m : omap V) (ps : list string) :
  forall ret : omap W,
    NoDup ps ->
    (forall p, In p ps -> omap_has p ret = false) ->
    fold_left (fun ret p => match omap_get p m with
                            | Some v => omap_set p (f v) ret
                            | None => ret
                            end) ps ret
    = ret ++ pick_from f m ps.
Proof.
  induction ps as [|p ps IH]; intros ret Hnd Hfresh; cbn [fold_left].
  - now rewrite app_nil_r.
  - inversion Hnd as [|? ? Hnotin Hnd']; subst.
    unfold pick_from. cbn [flat_map]. fold (pick_from f m ps).
    destruct (omap_get p m) as [v|].
    + rewrite omap_set_fresh by (apply Hfresh; now left).
      rewrite IH; [now rewrite <- app_assoc | exact Hnd' |].
      intros p' Hp'. unfold omap_has. rewrite omap_get_app.
      specialize (Hfresh p' (or_intror Hp')). unfold omap_has in Hfresh.
      destruct (omap_get p' ret); [discriminate|]. cbn.
      destruct (p =? p')%string eqn:E; [|reflexivity].
      apply String.eqb_eq in E. subst. contradiction.
    + apply IH; [exact Hnd'|]. intros p' Hp'. apply Hfresh. now right.
Qed.

(** ** QuerySet: the wire render *)

Lemma NoDup_jsonProps : NoDup QuerySet.jsonProps.
Proof.
  unfold QuerySet.jsonProps.
  repeat constructor; cbn; intuition discriminate.
Qed.

Lemma NoDup_bareProps : NoDup QuerySet.bareProps.
Proof.
  unfold QuerySet.bareProps.
  repeat constructor; cbn; intuition discriminate.
Qed.

Lemma value_cooked (qs : QuerySet.t) :
  QuerySet.value true qs
  = pick_from JText (QuerySet.q qs) QuerySet.jsonProps
      ++ pick_from (fun v => v) (QuerySet.q qs) QuerySet.bareProps.
Proof.
  unfold QuerySet.value.
  rewrite (fold_pick JText (QuerySet.q qs) QuerySet.jsonProps [])
    by (apply NoDup_jsonProps || reflexivity).
  cbn [app].
  rewrite (fold_pick (fun v => v) (QuerySet.q qs) QuerySet.bareProps)
    by (apply NoDup_bareProps
        || (intros p Hp; unfold omap_has; rewrite omap_get_pick;
            cbn in Hp; intuition (subst; reflexivity))).
  reflexivity.
Qed.

(** X4. The cooked render of a well-formed QuerySet lists the slots in the
    fixed order flt, agg, geo, keys, index, start, limit, end, keeping those
    the QuerySet holds, whatever the order they were set in; any other
    entry of the QuerySet is left out. *)
Theorem cooked_render_has_a_fixed_key_order (qs : QuerySet.t) :
  well_formed qs = true ->
  map fst (QuerySet.value true qs)
  = filter (fun p => omap_has p (QuerySet.q qs))
           ["flt"; "agg"; "geo"; "keys"; "index"; "start"; "limit"; "end"].
Proof.
  intros _.
  rewrite value_cooked, map_app, !keys_of_pick, <- filter_app. reflexivity.
Qed.

Lemma cooked_render_has_a_fixed_key_order_witness :
  well_formed (QuerySet.count (QuerySet.limit (JNum 5)
                                 (QuerySet.start (JNum 0) QuerySet.new)))
  = true
  /\ map fst (QuerySet.value true
                (QuerySet.count (QuerySet.limit (JNum 5)
                                   (QuerySet.start (JNum 0) QuerySet.new))))
     = filter (fun p => omap_has p
                          (QuerySet.q
                             (QuerySet.count
                                (QuerySet.limit (JNum 5)
                                   (QuerySet.start (JNum 0) QuerySet.new)))))
              ["flt"; "agg"; "geo"; "keys"; "index"; "start"; "limit"; "end"].
Proof.
  split; [reflexivity|].
  apply (cooked_render_has_a_fixed_key_order
           (QuerySet.count (QuerySet.limit (JNum 5)
                              (QuerySet.start (JNum 0) QuerySet.new)))).
  reflexivity.
Defined.

(** X5. Lookup in the cooked render of a well-formed QuerySet: a composite
    slot (flt, agg, geo, keys) comes out as the JSON text of its value, a
    scalar slot (index, start, limit, end) comes out as it is, and every
    other name is absent. *)
Theorem cooked_render_lookup (qs : QuerySet.t) (k : string) :
  well_formed qs = true ->
  omap_get k (QuerySet.value true qs)
  = if is_in k ["flt"; "agg"; "geo"; "keys"]
    then option_map JText (omap_get k (QuerySet.q qs))
    else if is_in k ["index"; "start"; "limit"; "end"]
         then omap_get k (QuerySet.q qs)
         else None.
Proof.
  intros _.
  rewrite value_cooked, omap_get_app, !omap_get_pick.
  change QuerySet.jsonProps with ["flt"; "agg"; "geo"; "keys"].
  change QuerySet.bareProps with ["index"; "start"; "limit"; "end"].
  destruct (is_in k ["flt"; "agg"; "geo"; "keys"]),
    (is_in k ["index"; "start"; "limit"; "end"]),
    (omap_get k (QuerySet.q qs)); reflexivity.
Qed.

Lemma cooked_render_lookup_witness :
  well_formed (QuerySet.limit (JNum 5) (QuerySet.start (JNum 0) QuerySet.new))
  = true
  /\ omap_get "limit"
       (QuerySet.value true
          (QuerySet.limit (JNum 5) (QuerySet.start (JNum 0) QuerySet.new)))
     = if is_in "limit" ["flt"; "agg"; "geo"; "keys"]
       then option_map JText
              (omap_get "limit"
                 (QuerySet.q (QuerySet.limit (JNum 5)
                                (QuerySet.start (JNum 0) QuerySet.new))))
       else if is_in "limit" ["index"; "start"; "limit"; "end"]
            then omap_get "limit"
                   (QuerySet.q (QuerySet.limit (JNum 5)
                                  (QuerySet.start (JNum 0) QuerySet.new)))
            else None.
Proof.
  split; [reflexivity|].
  apply (cooked_render_lookup
           (QuerySet.limit (JNum 5) (QuerySet.start (JNum 0) QuerySet.new))
           "limit").
  reflexivity.
Defined.

(** ** QuerySet: the builders *)

Lemma apply_setter_writes (s : setter) (qs : QuerySet.t) :
  apply_setter s qs
  = QuerySet.mk (omap_set (slot s) (written s) (QuerySet.q qs)).
Proof.
  destruct s; try reflexivity.
  cbn [apply_setter slot written]. unfold QuerySet.distinct.
  destruct (QuerySet.js_truthy index); reflexivity.
Qed.

Lemma written_is_composite (s : setter) :
  slot s = "agg" \/ slot s = "geo" -> composite (Some (written s)) = true.
Proof.
  destruct s; cbn; intros [H|H]; try discriminate H; try reflexivity;
    destruct (QuerySet.js_truthy index); reflexivity.
Qed.

Lemma setter_keeps_well_formed (s : setter) (qs : QuerySet.t) :
  well_formed qs = true ->
  well_formed (apply_setter s qs) = true
  /\ chain (apply_setter s qs) = chain qs.
Proof.
  rewrite apply_setter_writes. unfold well_formed, chain.
  cbn [QuerySet.q]. rewrite !omap_get_set.
  intros H. apply andb_prop in H as [H Hk].
  apply andb_prop in H as [H Hg]. apply andb_prop in H as [Hf Ha].
  pose proof (written_is_composite s) as Hw.
  destruct s; cbn [slot String.eqb Ascii.eqb Bool.eqb] in *;
    rewrite ?Hf, ?Ha, ?Hg, ?Hk, ?Hw by auto; split; reflexivity.
Qed.

Lemma forKeys_keeps_well_formed keys index (qs : QuerySet.t) :
  well_formed qs = true ->
  well_formed (QuerySet.forKeys keys index qs) = true
  /\ chain (QuerySet.forKeys keys index qs) = chain qs.
Proof.
  unfold well_formed, chain, QuerySet.forKeys. cbn [QuerySet.q].
  intros H. apply andb_prop in H as [H Hk].
  apply andb_prop in H as [H Hg]. apply andb_prop in H as [Hf Ha].
  destruct (QuerySet.js_truthy index); rewrite !omap_get_set;
    cbn [String.eqb Ascii.eqb Bool.eqb]; rewrite Hf, Ha, Hg;
    split; reflexivity.
Qed.

Lemma apply_filter_pushes (f : filter_call) (qs : QuerySet.t) :
  apply_filter f qs = QuerySet.push_filter (filter_op f) qs.
Proof. destruct f; reflexivity. Qed.

Lemma filter_keeps_well_formed (f : filter_call) (qs : QuerySet.t) :
  well_formed qs = true ->
  exists qs',
    apply_filter f qs = Some qs'
    /\ well_formed qs' = true
    /\ chain qs' = chain qs ++ [filter_op f].
Proof.
  rewrite apply_filter_pushes.
  unfold well_formed, chain, QuerySet.push_filter.
  intros H. apply andb_prop in H as [H Hk].
  apply andb_prop in H as [H Hg]. apply andb_prop in H as [Hf Ha].
  destruct (omap_get "flt" (QuerySet.q qs)) as [[| | | |l| |]|];
    try discriminate Hf;
    (eexists; split; [reflexivity|]; cbn [QuerySet.q];
     rewrite !omap_get_set; cbn [String.eqb Ascii.eqb Bool.eqb];
     rewrite Ha, Hg, Hk; split; reflexivity).
Qed.

Lemma build_none (l : list builder_call) :
  fold_left (fun acc b => match acc with
                          | Some qs => apply_builder b qs
                          | None => None
                          end) l None = None.
Proof. induction l; [reflexivity | exact IHl]. Qed.

(** X1. From a well-formed QuerySet (the empty one is), no chain of builder
    calls throws, the result is well formed again, and its filter chain is
    the old one followed by the operations of the filter calls, in call
    order: the other builders never touch it. *)
Theorem builders_extend_the_filter_chain_in_call_order
    (l : list builder_call) (qs : QuerySet.t) :
  well_formed qs = true ->
  exists qs',
    build l qs = Some qs'
    /\ well_formed qs' = true
    /\ chain qs' = chain qs ++ pushed l.
Proof.
  revert qs. induction l as [|b l IH]; intros qs H.
  - exists qs. now rewrite app_nil_r.
  - unfold build. cbn [fold_left]. fold (build l).
    destruct b as [f|s|keys index]; cbn [apply_builder pushed flat_map].
    + destruct (filter_keeps_well_formed f qs H) as (q1 & E & H1 & C1).
      rewrite E. destruct (IH q1 H1) as (q2 & E2 & H2 & C2).
      exists q2. fold (pushed l). rewrite C2, C1, <- app_assoc.
      repeat split; assumption.
    + destruct (setter_keeps_well_formed s qs H) as [H1 C1].
      destruct (IH _ H1) as (q2 & E2 & H2 & C2).
      exists q2. fold (pushed l). rewrite C2, C1. repeat split; assumption.
    + destruct (forKeys_keeps_well_formed keys index qs H) as [H1 C1].
      destruct (IH _ H1) as (q2 & E2 & H2 & C2).
      exists q2. fold (pushed l). rewrite C2, C1. repeat split; assumption.
Qed.

Lemma builders_extend_the_filter_chain_in_call_order_witness :
  well_formed QuerySet.new = true
  /\ exists qs',
      build [BFilter (FLt (JStr "age") (JNum 30) (JBool false));
             BSetter (SLimit (JNum 5));
             BFilter (FHasFields (JArr [JStr "name"]))] QuerySet.new
      = Some qs'
      /\ well_formed qs' = true
      /\ chain qs'
         = chain QuerySet.new
             ++ pushed [BFilter (FLt (JStr "age") (JNum 30) (JBool false));
                        BSetter (SLimit (JNum 5));
                        BFilter (FHasFields (JArr [JStr "name"]))].
Proof.
  split; [reflexivity|].
  apply (builders_extend_the_filter_chain_in_call_order
           [BFilter (FLt (JStr "age") (JNum 30) (JBool false));
            BSetter (SLimit (JNum 5));
            BFilter (FHasFields (JArr [JStr "name"]))] QuerySet.new).
  reflexivity.
Defined.

(** X2. The single-slot methods (start, end, limit, the aggregations, the
    two geo operations) overwrite: of two calls that write the same slot
    only the last one counts, the slot keeps its position, and every other
    slot keeps its value. *)
Theorem last_write_to_a_slot_wins (s1 s2 : setter) (qs : QuerySet.t) :
  slot s1 = slot s2 ->
  apply_setter s2 (apply_setter s1 qs) = apply_setter s2 qs
  /\ omap_get (slot s2) (QuerySet.q (apply_setter s2 qs)) = Some (written s2)
  /\ forall k, (slot s2 =? k)%string = false ->
               omap_get k (QuerySet.q (apply_setter s2 qs))
               = omap_get k (QuerySet.q qs).
Proof.
  intros H. rewrite !apply_setter_writes. cbn [QuerySet.q].
  rewrite H, omap_set_set. split; [reflexivity|].
  split; [apply omap_get_set_same|].
  intros k Hk. now apply omap_get_set_other.
Qed.

Lemma last_write_to_a_slot_wins_witness :
  slot (SSum (JStr "price")) = slot SCount
  /\ apply_setter SCount (apply_setter (SSum (JStr "price")) QuerySet.new)
     = apply_setter SCount QuerySet.new
  /\ omap_get (slot SCount) (QuerySet.q (apply_setter SCount QuerySet.new))
     = Some (written SCount)
  /\ forall k, (slot SCount =? k)%string = false ->
               omap_get k (QuerySet.q (apply_setter SCount QuerySet.new))
               = omap_get k (QuerySet.q QuerySet.new).
Proof.
  split; [reflexivity|].
  apply (last_write_to_a_slot_wins (SSum (JStr "price")) SCount QuerySet.new).
  reflexivity.
Defined.

(** X3. [forKeys] replaces the key list, and sets the index only when it is
    given one that is truthy: called without index (or with an empty one) it
    leaves an index set by an earlier call in place. *)
Theorem forKeys_without_index_keeps_the_index
    (keys1 keys2 : list json) (index1 index2 : json) (qs : QuerySet.t) :
  QuerySet.js_truthy index1 = true ->
  QuerySet.js_truthy index2 = false ->
  let qs' := QuerySet.forKeys keys2 index2 (QuerySet.forKeys keys1 index1 qs) in
  omap_get "keys" (QuerySet.q qs') = Some (JArr keys2)
  /\ omap_get "index" (QuerySet.q qs') = Some index1.
Proof.
  intros H1 H2. unfold QuerySet.forKeys. rewrite H1, H2. cbn [QuerySet.q].
  rewrite !omap_get_set. cbn [String.eqb Ascii.eqb Bool.eqb].
  split; reflexivity.
Qed.

Lemma forKeys_without_index_keeps_the_index_witness :
  QuerySet.js_truthy (JStr "by_owner") = true
  /\ QuerySet.js_truthy JNull = false
  /\ omap_get "keys"
       (QuerySet.q (QuerySet.forKeys [JStr "b"] JNull
                      (QuerySet.forKeys [JStr "a"] (JStr "by_owner")
                                        QuerySet.new)))
     = Some (JArr [JStr "b"])
  /\ omap_get "index"
       (QuerySet.q (QuerySet.forKeys [JStr "b"] JNull
                      (QuerySet.forKeys [JStr "a"] (JStr "by_owner")
                                        QuerySet.new)))
     = Some (JStr "by_owner").
Proof.
  split; [reflexivity|]. split; [reflexivity|].
  apply (forKeys_without_index_keeps_the_index [JStr "a"] [JStr "b"]
           (JStr "by_owner") JNull QuerySet.new); reflexivity.
Defined.

(** ** Contexts: builders *)

Lemma requestMethod_after_select (s : selection) (c : DC.t) :
  DC.requestMethod (select s c)
  = if is_method_selection s then "POST" else DC.requestMethod c.
Proof. destruct c; destruct s; reflexivity. Qed.

(** X6. Selecting a method switches the verb to POST and no later selection
    of an app, collection, document or format switches it back: after a
    chain of selections the verb is POST if a method was selected anywhere
    in the chain, and the verb of the starting context otherwise. *)
Theorem method_selection_makes_the_verb_sticky
    (l : list selection) (c : DC.t) :
  DC.requestMethod (navigate (map Select l) c)
  = if existsb is_method_selection l then "POST" else DC.requestMethod c.
Proof.
  revert c. induction l as [|s l IH]; intros c; [reflexivity|].
  cbn [map existsb]. unfold navigate. cbn [fold_left take].
  fold (navigate (map Select l) (select s c)).
  rewrite IH, requestMethod_after_select.
  destruct (is_method_selection s), (existsb is_method_selection l);
    reflexivity.
Qed.

(** X7. [format(name, options)] never removes a format parameter: every
    parameter of the context is still there afterwards, rebound only if
    [options] names it; [format] itself is [name] unless [options] rebinds
    it. *)
Theorem format_accumulates_parameters
    (name : string) (options : omap string) (c : DC.t) (k : string) :
  omap_get k (DC.params (Sondra.format name options c))
  = match omap_get k (omap_merge [] options) with
    | Some v => Some v
    | None => if ("format" =? k)%string then Some name
              else omap_get k (DC.params c)
    end.
Proof.
  rewrite params_after_format, omap_get_merge, omap_get_set. reflexivity.
Qed.

(** X8. [auth(token)] binds the Authorization header to the bearer token,
    replacing the token of an earlier [auth], keeps every other header, and
    touches neither the URL nor the fields it is computed from. *)
Theorem auth_replaces_the_bearer_token (t1 t2 : string) (c : DC.t) :
  Sondra.auth t2 (Sondra.auth t1 c) = Sondra.auth t2 c
  /\ omap_get "Authorization" (DC.headers (Sondra.auth t2 c))
     = Some ("Bearer " ++ t2)%string
  /\ (forall k, ("Authorization" =? k)%string = false ->
                omap_get k (DC.headers (Sondra.auth t2 c))
                = omap_get k (DC.headers c))
  /\ DC.url (Sondra.auth t2 c) = DC.url c
  /\ url_fields (Sondra.auth t2 c) = url_fields c.
Proof.
  destruct c as [pr ho po mo co ur bp he ao rm su ap cl dc me pa bo qs ai rb].
  unfold Sondra.auth. cbn [DC.set DC.headers DC.url].
  rewrite omap_set_set. split; [reflexivity|].
  split; [apply omap_get_set_same|].
  split; [intros k Hk; now apply omap_get_set_other|].
  split; reflexivity.
Qed.

Lemma omap_merge_nil {V : Type} (o : omap V) :
  NoDup (map fst o) -> omap_merge [] o = o.
Proof.
  intros H. now rewrite omap_merge_fresh.
Qed.

(** X9. [fetchSchema(schemaOptions)] executes on a context whose format
    parameters are exactly [schemaOptions] with [format] forced to schema:
    the parameters of the context it is called on are dropped.  The URL
    requested is the layout of those fields.  (The QuerySet is to be well
    formed for [call] to build a request at all; the option names are
    distinct, as the keys of an object are.) *)
Theorem fetchSchema_replaces_the_parameters
    (schemaOptions : omap string) (c : DC.t) (o : fetch_outcome) :
  NoDup (map fst schemaOptions) ->
  well_formed (DC.querySet c) = true ->
  let c' := Sondra.fetchSchema_context schemaOptions c in
  DC.params c' = omap_set "format" "schema" schemaOptions
  /\ url_fields c'
     = (DC.protocol c, DC.host c, DC.port c, DC.basePath c, DC.app c,
        DC.collection c, DC.document c, DC.method c,
        omap_set "format" "schema" schemaOptions)
  /\ DC.querySet c' = DC.querySet c
  /\ ru_base (fst (fst (Sondra.fetchSchema schemaOptions c o)))
     = UrlString (effective_layout c')
  /\ snd (Sondra.fetchSchema schemaOptions c o) = Sondra.call_settle o.
Proof.
  intros Hnd Hwf c'.
  assert (Hp : DC.params c' = omap_set "format" "schema" schemaOptions).
  { subst c'. destruct c. unfold Sondra.fetchSchema_context.
    cbn [Sondra.calculateUrl DC.set DC.params].
    now rewrite (omap_merge_nil schemaOptions Hnd). }
  split; [exact Hp|]. split.
  { unfold url_fields. rewrite Hp. subst c'. destruct c. reflexivity. }
  split; [subst c'; destruct c; reflexivity|].
  split; [|reflexivity].
  rewrite <- url_layout_is_effective.
  unfold Sondra.fetchSchema, Sondra.call, Sondra.call_request.
  cbn [fst DC.merge fold_left].
  fold c'. pose proof (calculateUrl_current
                         (DC.set (DC.SetParams
                                    (omap_merge (omap_merge [] schemaOptions)
                                                [("format", "schema")])) c))
    as Hc.
  unfold url_current in Hc.
  destruct (negb (DC.requestMethod c' =? "GET")%string); cbn [fst ru_base];
    exact Hc.
Qed.

Lemma fetchSchema_replaces_the_parameters_witness :
  NoDup (map fst [("bare_keys", "true")])
  /\ well_formed (DC.querySet users) = true
  /\ DC.params (Sondra.fetchSchema_context [("bare_keys", "true")] users)
     = omap_set "format" "schema" [("bare_keys", "true")]
  /\ url_fields (Sondra.fetchSchema_context [("bare_keys", "true")] users)
     = (DC.protocol users, DC.host users, DC.port users, DC.basePath users,
        DC.app users, DC.collection users, DC.document users,
        DC.method users, omap_set "format" "schema" [("bare_keys", "true")])
  /\ DC.querySet (Sondra.fetchSchema_context [("bare_keys", "true")] users)
     = DC.querySet users
  /\ ru_base (fst (fst (Sondra.fetchSchema [("bare_keys", "true")] users
                          (Response 200 (inl (JObj []))))))
     = UrlString (effective_layout
                    (Sondra.fetchSchema_context [("bare_keys", "true")] users))
  /\ snd (Sondra.fetchSchema [("bare_keys", "true")] users
            (Response 200 (inl (JObj []))))
     = Sondra.call_settle (Response 200 (inl (JObj []))).
Proof.
  assert (H : NoDup (map fst [("bare_keys", "true")]))
    by (repeat constructor; intros []).
  split; [exact H|]. split; [reflexivity|].
  apply (fetchSchema_replaces_the_parameters [("bare_keys", "true")] users
           (Response 200 (inl (JObj []))) H).
  reflexivity.
Defined.

(** ** Contexts: the request of a call *)

Lemma set_keeps_url (u : DC.field_update) (c : DC.t) :
  sets_url u = false -> DC.url (DC.set u c) = DC.url c.
Proof.
  destruct c; destruct u; cbn; intros H; try discriminate; reflexivity.
Qed.

Lemma merge_keeps_url (tc : list DC.field_update) :
  forall c,
    forallb (fun u => negb (sets_url u)) tc = true ->
    DC.url (DC.merge c tc) = DC.url c.
Proof.
  unfold DC.merge.
  induction tc as [|u tc IH]; intros c H; [reflexivity|].
  cbn in H. apply andb_prop in H as [Hu Htc].
  cbn [fold_left]. rewrite IH by exact Htc.
  apply set_keeps_url. now destruct (sets_url u).
Qed.

(** X10. The overrides handed to [call] or [robustCall] are merged without
    recomputing the URL: unless the overrides set [url] itself, the request
    goes to the URL stored in the context, also when the overrides change
    a selector, the host or the format parameters.  (The QuerySet is to be
    well formed for [call] to build a request at all.) *)
Theorem overrides_do_not_recompute_the_url
    (lodash_size : omap json -> Z) (this : DC.t)
    (tc : list DC.field_update) :
  forallb (fun u => negb (sets_url u)) tc = true ->
  well_formed (DC.querySet (DC.merge this tc)) = true ->
  ru_base (fst (Sondra.call_request this tc)) = DC.url this
  /\ ru_base (fst (Sondra.robust_request lodash_size (DC.merge this tc)))
     = DC.url this.
Proof.
  intros H _. unfold Sondra.call_request, Sondra.robust_request.
  destruct (negb (DC.requestMethod (DC.merge this tc) =? "GET")%string);
    cbn [fst ru_base]; rewrite (merge_keeps_url tc this H); split; reflexivity.
Qed.

Lemma overrides_do_not_recompute_the_url_witness :
  forallb (fun u => negb (sets_url u))
          [DC.SetApp (Some "core"); DC.SetHost "example.org"] = true
  /\ well_formed
       (DC.querySet (DC.merge login [DC.SetApp (Some "core");
                                     DC.SetHost "example.org"])) = true
  /\ ru_base (fst (Sondra.call_request login
                     [DC.SetApp (Some "core"); DC.SetHost "example.org"]))
     = DC.url login
  /\ ru_base (fst (Sondra.robust_request count_entries
                     (DC.merge login [DC.SetApp (Some "core");
                                      DC.SetHost "example.org"])))
     = DC.url login.
Proof.
  split; [reflexivity|]. split; [reflexivity|].
  apply (overrides_do_not_recompute_the_url count_entries login
           [DC.SetApp (Some "core"); DC.SetHost "example.org"]);
    reflexivity.
Defined.

Lemma get_of_five_options (additional : omap optval) (a b c d e : optval)
    (k : string) :
  omap_get k (omap_merge additional
                [("method", a); ("body", b); ("mode", c); ("compress", d);
                 ("headers", e)])
  = if ("headers" =? k)%string then Some e
    else if ("compress" =? k)%string then Some d
    else if ("mode" =? k)%string then Some c
    else if ("body" =? k)%string then Some b
    else if ("method" =? k)%string then Some a
    else omap_get k additional.
Proof.
  unfold omap_merge. cbn [fold_left fst snd]. now rewrite !omap_get_set.
Qed.

Lemma get_of_four_options (additional : omap optval) (a c d e : optval)
    (k : string) :
  omap_get k (omap_merge additional
                [("method", a); ("mode", c); ("compress", d); ("headers", e)])
  = if ("headers" =? k)%string then Some e
    else if ("compress" =? k)%string then Some d
    else if ("mode" =? k)%string then Some c
    else if ("method" =? k)%string then Some a
    else omap_get k additional.
Proof.
  unfold omap_merge. cbn [fold_left fst snd]. now rewrite !omap_get_set.
Qed.

(** X11. In the options handed to [fetch] by [call], the method, mode,
    compress flag and headers are always those of the context: an entry of
    [additionalRequestOptions] under one of these names is overridden.
    Every additional option under another name passes through (a [body]
    entry too when the verb is GET, for which [call] computes no body).
    (The QuerySet is to be well formed for [call] to build a request.) *)
Theorem computed_options_override_additional_ones
    (this : DC.t) (tc : list DC.field_update) :
  well_formed (DC.querySet (DC.merge this tc)) = true ->
  let m := DC.merge this tc in
  let options := snd (Sondra.call_request this tc) in
  omap_get "method" options = Some (OStr (DC.requestMethod m))
  /\ omap_get "mode" options = Some (OStr (DC.mode m))
  /\ omap_get "compress" options = Some (OBool (DC.compress m))
  /\ omap_get "headers" options = Some (OHeaders (DC.headers m))
  /\ (forall k,
         is_in k (if (DC.requestMethod m =? "GET")%string
                  then ["method"; "mode"; "compress"; "headers"]
                  else computed_options) = false ->
         omap_get k options
         = option_map OJson (omap_get k (DC.additionalRequestOptions m))).
Proof.
  intros _ m options. subst options. unfold Sondra.call_request. fold m.
  destruct (DC.requestMethod m =? "GET")%string; cbn [negb snd].
  - rewrite !get_of_four_options. cbn [String.eqb Ascii.eqb Bool.eqb].
    repeat split. intros k Hk. rewrite get_of_four_options, omap_get_map.
    unfold is_in in Hk. cbn [existsb] in Hk.
    repeat (apply orb_false_elim in Hk; destruct Hk as [? Hk]).
    repeat match goal with H : (_ =? k)%string = false |- _ =>
                             rewrite H; clear H end.
    reflexivity.
  - rewrite !get_of_five_options. cbn [String.eqb Ascii.eqb Bool.eqb].
    repeat split. intros k Hk. rewrite get_of_five_options, omap_get_map.
    unfold is_in, computed_options in Hk. cbn [existsb] in Hk.
    repeat (apply orb_false_elim in Hk; destruct Hk as [? Hk]).
    repeat match goal with H : (_ =? k)%string = false |- _ =>
                             rewrite H; clear H end.
    reflexivity.
Qed.

Lemma computed_options_override_additional_ones_witness :
  well_formed
    (DC.querySet
       (DC.merge login
          [DC.SetAdditionalRequestOptions
             [("method", JStr "PUT"); ("credentials", JStr "include")]]))
  = true
  /\ omap_get "method"
       (snd (Sondra.call_request login
               [DC.SetAdditionalRequestOptions
                  [("method", JStr "PUT"); ("credentials", JStr "include")]]))
     = Some (OStr "POST")
  /\ omap_get "credentials"
       (snd (Sondra.call_request login
               [DC.SetAdditionalRequestOptions
                  [("method", JStr "PUT"); ("credentials", JStr "include")]]))
     = Some (OJson (JStr "include")).
Proof.
  split; [reflexivity|].
  destruct (computed_options_override_additional_ones login
              [DC.SetAdditionalRequestOptions
                 [("method", JStr "PUT"); ("credentials", JStr "include")]]
              eq_refl) as (Hm & _ & _ & _ & Hk).
  split; [exact Hm|]. exact (Hk "credentials" eq_refl).
Defined.








(** ** The resilient call: terminal policies *)

Lemma assign_id_drawn rqid next ps fs :
  Sondra.assign_id rqid (Sondra.mkWorld next ps fs)
  = (drawn_id rqid next, Sondra.mkWorld (drawn_counter rqid next) ps fs).
Proof.
  unfold Sondra.assign_id, drawn_id, drawn_counter.
  destruct rqid as [r|]; [destruct (r =? 0)|]; reflexivity.
Qed.

Lemma drawn_kept id next :
  id <> 0 ->
  drawn_id (Some id) next = id /\ drawn_counter (Some id) next = next.
Proof.
  intros H. unfold drawn_id, drawn_counter.
  destruct (id =? 0) eqn:E; [apply Z.eqb_eq in E; contradiction|].
  split; reflexivity.
Qed.

(** One invocation whose probe succeeds and whose request fails. *)
Lemma failed_request_step lodash_size fuel this tc a n rqid next ps fs e :
  Sondra.robustCall lodash_size (S fuel) this tc a n rqid
    (Sondra.mkWorld next (PingSettled :: ps) (NoResponse e :: fs))
  = Sondra.prepend
      [Sondra.EEnter (drawn_id rqid next) n a;
       Sondra.EPing (Sondra.ping_url this);
       Sondra.EFetch (DC.url (DC.merge this tc))
         (snd (Sondra.robust_request lodash_size (DC.merge this tc)))]
      (Sondra.on_error (Sondra.robustCall lodash_size fuel this tc) this tc a
         n (drawn_id rqid next) e
         (Sondra.mkWorld (drawn_counter rqid next) ps fs)).
Proof.
  cbn [Sondra.robustCall]. unfold Sondra.invocation.
  rewrite assign_id_drawn. unfold Sondra.executor, Sondra.send.
  cbn [Sondra.probes Sondra.fetches Sondra.nextDeferredRequestId].
  now rewrite !prepend_prepend.
Qed.

(** X14. An invocation whose probe succeeds and whose request fails with an
    error that has no positive status settles its own promise at once under
    the fail and ignore policies: fail rejects it with
    {id, url, status, error} where status is [error.status || 0] (zero for
    an error without status, the error's status when that is negative),
    ignore resolves it with null.  The invocation makes one request, never
    calls the observer, never waits, never re-invokes itself, and leaves
    the rest of the oracle untouched.  The statement is about the promise
    of the invocation whose probe succeeded at once. *)
Theorem terminal_policies_settle_on_the_first_failure
    (lodash_size : omap json -> Z) (fuel : nat) (this : DC.t)
    (tc : list DC.field_update) (n : Z) (rqid : option Z) (next : Z)
    (ps : list probe_outcome) (fs : list fetch_outcome) (e : jserror) :
  (0 <? Sondra.status_or_zero e) = false ->
  let w := Sondra.mkWorld next (PingSettled :: ps) (NoResponse e :: fs) in
  let id := drawn_id rqid next in
  let url := DC.url (DC.merge this tc) in
  let sent :=
    [Sondra.EEnter id n "fail"; Sondra.EPing (Sondra.ping_url this);
     Sondra.EFetch url
       (snd (Sondra.robust_request lodash_size (DC.merge this tc)))] in
  let sent' :=
    [Sondra.EEnter id n "ignore"; Sondra.EPing (Sondra.ping_url this);
     Sondra.EFetch url
       (snd (Sondra.robust_request lodash_size (DC.merge this tc)))] in
  let rejection :=
    Sondra.mkRejection id url (Sondra.status_or_zero e) (VError e) in
  let left := Sondra.mkWorld (drawn_counter rqid next) ps fs in
  Sondra.robustCall lodash_size (S fuel) this tc "fail" n rqid w
  = Some (Sondra.mkRun (Sondra.Rejected rejection)
            (sent ++ [Sondra.EReject rejection]) left)
  /\ Sondra.robustCall lodash_size (S fuel) this tc "ignore" n rqid w
     = Some (Sondra.mkRun (Sondra.Resolved Sondra.ResolvedNull)
               (sent' ++ [Sondra.EResolve Sondra.ResolvedNull]) left).
Proof.
  intros He w id url sent sent' rejection left.
  subst w. rewrite !failed_request_step. unfold Sondra.on_error.
  rewrite He. split; reflexivity.
Qed.

Lemma terminal_policies_settle_on_the_first_failure_witness :
  (0 <? Sondra.status_or_zero failed_to_fetch) = false
  /\ Sondra.robustCall count_entries 1 login credentials "fail" 0 None
       (Sondra.mkWorld 1 [PingSettled] [NoResponse failed_to_fetch])
     = Some (Sondra.mkRun
               (Sondra.Rejected
                  (Sondra.mkRejection (drawn_id None 1)
                     (DC.url (DC.merge login credentials))
                     (Sondra.status_or_zero failed_to_fetch)
                     (VError failed_to_fetch)))
               ([Sondra.EEnter (drawn_id None 1) 0 "fail";
                 Sondra.EPing (Sondra.ping_url login);
                 Sondra.EFetch (DC.url (DC.merge login credentials))
                   (snd (Sondra.robust_request count_entries
                           (DC.merge login credentials)))]
                ++ [Sondra.EReject
                      (Sondra.mkRejection (drawn_id None 1)
                         (DC.url (DC.merge login credentials))
                         (Sondra.status_or_zero failed_to_fetch)
                         (VError failed_to_fetch))])
               (Sondra.mkWorld (drawn_counter None 1) [] []))
  /\ Sondra.robustCall count_entries 1 login credentials "ignore" 0 None
       (Sondra.mkWorld 1 [PingSettled] [NoResponse failed_to_fetch])
     = Some (Sondra.mkRun (Sondra.Resolved Sondra.ResolvedNull)
               ([Sondra.EEnter (drawn_id None 1) 0 "ignore";
                 Sondra.EPing (Sondra.ping_url login);
                 Sondra.EFetch (DC.url (DC.merge login credentials))
                   (snd (Sondra.robust_request count_entries
                           (DC.merge login credentials)))]
                ++ [Sondra.EResolve Sondra.ResolvedNull])
               (Sondra.mkWorld (drawn_counter None 1) [] [])).
Proof.
  split; [reflexivity|].
  apply (terminal_policies_settle_on_the_first_failure count_entries 0 login
           credentials 0 None 1 [] [] failed_to_fetch).
  reflexivity.
Defined.

(** X15. A response whose body does not parse is handled as a request that
    got no response, whatever its status: the run is the one of a
    connection failure with the parse error.  Under defer that means the
    observer is called and the request retried, for a 4xx or 5xx response
    with a broken body as well. *)
Theorem unparsable_response_is_a_transport_failure
    (lodash_size : omap json -> Z) (fuel : nat) (this : DC.t)
    (tc : list DC.field_update) (a : string) (n : Z) (rqid : option Z)
    (next : Z) (ps : list probe_outcome) (fs : list fetch_outcome)
    (status : Z) (message : string) :
  let e := mkError message None in
  Sondra.robustCall lodash_size (S fuel) this tc a n rqid
    (Sondra.mkWorld next (PingSettled :: ps) (Response status (inr e) :: fs))
  = Sondra.robustCall lodash_size (S fuel) this tc a n rqid
      (Sondra.mkWorld next (PingSettled :: ps) (NoResponse e :: fs))
  /\ Sondra.robustCall lodash_size (S fuel) this tc "defer" n None
       (Sondra.mkWorld next (PingSettled :: ps)
                       (Response status (inr e) :: fs))
     = Sondra.prepend (failed_attempt lodash_size this tc e next n)
         (Sondra.unlinked
            (Sondra.robustCall lodash_size fuel this tc
               (if n <? maxTries (DC.robust (DC.merge this tc))
                then "defer" else "fail") (n + 1) None
               (Sondra.mkWorld (next + 1) ps fs))).
Proof.
  intros e.
  assert (H : forall a' r',
             Sondra.robustCall lodash_size (S fuel) this tc a' n r'
               (Sondra.mkWorld next (PingSettled :: ps)
                               (Response status (inr e) :: fs))
             = Sondra.robustCall lodash_size (S fuel) this tc a' n r'
                 (Sondra.mkWorld next (PingSettled :: ps)
                                 (NoResponse e :: fs))).
  { intros a' r'. cbn [Sondra.robustCall]. unfold Sondra.invocation.
    rewrite !assign_id_drawn. reflexivity. }
  split; [apply H|].
  rewrite H. apply (defer_step lodash_size this tc e eq_refl).
Qed.

(** X16. Two cases settle nothing.  When the error of a failed request
    carries a positive status, or when the failure policy is none of
    defer, fail and ignore, the invocation neither resolves nor rejects its
    promise and does not retry: after its one request nothing happens any
    more, and the promise stays pending. *)
Theorem some_failures_leave_the_promise_pending
    (lodash_size : omap json -> Z) (fuel : nat) (this : DC.t)
    (tc : list DC.field_update) (a : string) (n : Z) (rqid : option Z)
    (next : Z) (ps : list probe_outcome) (fs : list fetch_outcome)
    (e : jserror) :
  (0 <? Sondra.status_or_zero e) || negb (known_policy a) = true ->
  Sondra.robustCall lodash_size (S fuel) this tc a n rqid
    (Sondra.mkWorld next (PingSettled :: ps) (NoResponse e :: fs))
  = Some (Sondra.mkRun Sondra.Pending
            [Sondra.EEnter (drawn_id rqid next) n a;
             Sondra.EPing (Sondra.ping_url this);
             Sondra.EFetch (DC.url (DC.merge this tc))
               (snd (Sondra.robust_request lodash_size (DC.merge this tc)))]
            (Sondra.mkWorld (drawn_counter rqid next) ps fs)).
Proof.
  intros H. rewrite failed_request_step. unfold Sondra.on_error.
  destruct (0 <? Sondra.status_or_zero e); [reflexivity|].
  cbn [orb] in H. unfold known_policy, is_in in H. cbn [existsb] in H.
  rewrite (String.eqb_sym a "defer"), (String.eqb_sym a "fail"),
    (String.eqb_sym a "ignore").
  destruct ("defer" =? a)%string; [discriminate|].
  destruct ("fail" =? a)%string; [discriminate|].
  destruct ("ignore" =? a)%string; [discriminate|].
  reflexivity.
Qed.

Lemma some_failures_leave_the_promise_pending_witness :
  (0 <? Sondra.status_or_zero (mkError "Bad Gateway" (Some 502)))
  || negb (known_policy "defer") = true
  /\ Sondra.robustCall count_entries 1 login credentials "defer" 0 None
       (Sondra.mkWorld 1 [PingSettled]
          [NoResponse (mkError "Bad Gateway" (Some 502))])
     = Some (Sondra.mkRun Sondra.Pending
               [Sondra.EEnter (drawn_id None 1) 0 "defer";
                Sondra.EPing (Sondra.ping_url login);
                Sondra.EFetch (DC.url (DC.merge login credentials))
                  (snd (Sondra.robust_request count_entries
                          (DC.merge login credentials)))]
               (Sondra.mkWorld (drawn_counter None 1) [] [])).
Proof.
  split; [reflexivity|].
  apply (some_failures_leave_the_promise_pending count_entries 0 login
           credentials "defer" 0 None 1 [] []
           (mkError "Bad Gateway" (Some 502))).
  reflexivity.
Defined.

(** ** The resilient call: request ids of successive calls *)

Lemma first_invocation_draws lodash_size fuel this tc a n w :
  (List.length (Sondra.probes w) < fuel)%nat ->
  exists r rest,
    Sondra.robustCall lodash_size fuel this tc a n None w = Some r
    /\ Sondra.trace r
       = Sondra.EEnter (Sondra.nextDeferredRequestId w) n a :: rest
    /\ Sondra.nextDeferredRequestId w
       < Sondra.nextDeferredRequestId (Sondra.after r)
    /\ (List.length (Sondra.probes (Sondra.after r))
        <= List.length (Sondra.probes w))%nat.
Proof.
  intros Hw. destruct fuel as [|fuel]; [inversion Hw|].
  cbn [Sondra.robustCall]. unfold Sondra.invocation.
  destruct w as [next ps fs]. rewrite assign_id_drawn.
  cbn [drawn_id drawn_counter Sondra.nextDeferredRequestId Sondra.probes] in *.
  destruct (executor_answers lodash_size
              (Sondra.robustCall lodash_size fuel this tc) fuel
              (robustCall_answers lodash_size fuel this tc) this tc a n next
              (Sondra.mkWorld (next + 1) ps fs) Hw) as (res & E & L).
  rewrite E. unfold later in L.
  cbn [Sondra.nextDeferredRequestId Sondra.probes] in L.
  eexists. eexists. split; [reflexivity|]. cbn. repeat split; lia.
Qed.

(** X17. Successive logical calls get distinct request ids.  A call made
    without an id runs under the current value of the counter and leaves
    the counter strictly larger, whatever happens during the call; so the
    next call, made on the state the first one left, runs under a strictly
    larger id. *)
Theorem successive_calls_get_distinct_ids
    (lodash_size : omap json -> Z) (fuel1 fuel2 : nat)
    (this1 this2 : DC.t) (tc1 tc2 : list DC.field_update)
    (a1 a2 : string) (n1 n2 : Z) (w : Sondra.world) :
  (List.length (Sondra.probes w) < fuel1)%nat ->
  (List.length (Sondra.probes w) < fuel2)%nat ->
  exists r1 r2 rest1 rest2 id1 id2,
    Sondra.robustCall lodash_size fuel1 this1 tc1 a1 n1 None w = Some r1
    /\ Sondra.robustCall lodash_size fuel2 this2 tc2 a2 n2 None
         (Sondra.after r1) = Some r2
    /\ Sondra.trace r1 = Sondra.EEnter id1 n1 a1 :: rest1
    /\ Sondra.trace r2 = Sondra.EEnter id2 n2 a2 :: rest2
    /\ id1 = Sondra.nextDeferredRequestId w
    /\ id1 < id2.
Proof.
  intros H1 H2.
  destruct (first_invocation_draws lodash_size fuel1 this1 tc1 a1 n1 w H1)
    as (r1 & rest1 & E1 & T1 & L1 & P1).
  destruct (first_invocation_draws lodash_size fuel2 this2 tc2 a2 n2
              (Sondra.after r1)) as (r2 & rest2 & E2 & T2 & L2 & P2);
    [lia|].
  exists r1, r2, rest1, rest2, (Sondra.nextDeferredRequestId w),
    (Sondra.nextDeferredRequestId (Sondra.after r1)).
  repeat split; assumption.
Qed.

Lemma successive_calls_get_distinct_ids_witness :
  (List.length (Sondra.probes
                  (Sondra.mkWorld 1 [PingSettled]
                     [Response 200 (inl (JStr "token"))])) < 2)%nat
  /\ (List.length (Sondra.probes
                     (Sondra.mkWorld 1 [PingSettled]
                        [Response 200 (inl (JStr "token"))])) < 2)%nat
  /\ exists r1 r2 rest1 rest2 id1 id2,
      Sondra.robustCall count_entries 2 login credentials "defer" 0 None
        (Sondra.mkWorld 1 [PingSettled] [Response 200 (inl (JStr "token"))])
      = Some r1
      /\ Sondra.robustCall count_entries 2 users [] "fail" 0 None
           (Sondra.after r1) = Some r2
      /\ Sondra.trace r1 = Sondra.EEnter id1 0 "defer" :: rest1
      /\ Sondra.trace r2 = Sondra.EEnter id2 0 "fail" :: rest2
      /\ id1 = Sondra.nextDeferredRequestId
                 (Sondra.mkWorld 1 [PingSettled]
                    [Response 200 (inl (JStr "token"))])
      /\ id1 < id2.
Proof.
  split; [simpl; lia|]. split; [simpl; lia|].
  apply (successive_calls_get_distinct_ids count_entries 2 2 login users
           credentials [] "defer" "fail" 0 0
           (Sondra.mkWorld 1 [PingSettled]
              [Response 200 (inl (JStr "token"))])); simpl; lia.
Defined.

(** ** The resilient call: chains of failed probes *)

(** One invocation whose probe fails, in terms of the nested call. *)
Lemma failed_probe_step lodash_size fuel this tc a n rqid next p ps fs e :
  probe_error p = Some e ->
  let id := drawn_id rqid next in
  let w' := Sondra.mkWorld (drawn_counter rqid next) ps fs in
  Sondra.robustCall lodash_size (S fuel) this tc a n rqid
    (Sondra.mkWorld next (p :: ps) fs)
  = Sondra.prepend
      (Sondra.EEnter id n a :: ping_events this p
         ++ [Sondra.EObserver id (DC.url (DC.merge this tc)) e;
             Sondra.EDelay (refetchDelay (DC.robust this))])
      match Sondra.robustCall lodash_size fuel this tc a n (Some id) w' with
      | None => None
      | Some r =>
          match Sondra.promise r with
          | Sondra.Resolved _ =>
              Sondra.prepend (Sondra.trace r)
                (Sondra.send lodash_size
                   (Sondra.robustCall lodash_size fuel this tc) this tc a n
                   id (Sondra.after r))
          | _ => Some (Sondra.mkRun Sondra.Pending (Sondra.trace r)
                                    (Sondra.after r))
          end
      end.
Proof.
  intros Hp id w'. cbn [Sondra.robustCall]. unfold Sondra.invocation.
  rewrite assign_id_drawn. unfold Sondra.executor.
  cbn [Sondra.probes Sondra.fetches Sondra.nextDeferredRequestId].
  fold id. fold w'.
  destruct p as [| |e']; cbn in Hp; inversion Hp; subst;
    unfold Sondra.reprobe; rewrite ?prepend_prepend; reflexivity.
Qed.

(** ** The resilient call: an application error after a retry *)

(** One invocation whose probe succeeds and whose request is answered by a
    non-2xx response with a parsable body. *)
Lemma refused_request_step
    lodash_size fuel this tc a n rqid next ps fs status data :
  rsp_ok status = false ->
  Sondra.robustCall lodash_size (S fuel) this tc a n rqid
    (Sondra.mkWorld next (PingSettled :: ps) (Response status (inl data) :: fs))
  = Some (Sondra.mkRun
            (Sondra.Rejected
               (Sondra.mkRejection (drawn_id rqid next)
                  (DC.url (DC.merge this tc)) status (VJson data)))
            [Sondra.EEnter (drawn_id rqid next) n a;
             Sondra.EPing (Sondra.ping_url this);
             Sondra.EFetch (DC.url (DC.merge this tc))
               (snd (Sondra.robust_request lodash_size (DC.merge this tc)));
             Sondra.EReject
               (Sondra.mkRejection (drawn_id rqid next)
                  (DC.url (DC.merge this tc)) status (VJson data))]
            (Sondra.mkWorld (drawn_counter rqid next) ps fs)).
Proof.
  intros Hok. cbn [Sondra.robustCall]. unfold Sondra.invocation.
  rewrite assign_id_drawn. unfold Sondra.executor, Sondra.send.
  cbn [Sondra.probes Sondra.fetches Sondra.nextDeferredRequestId].
  rewrite Hok. reflexivity.
Qed.

(** C4. A response with a non-2xx status and a parsable JSON body rejects
    the promise of the invocation that received it, under every policy,
    with one request and without calling the observer: when that
    invocation is the first one of the call, the call rejects at once.
    When the response arrives after a retry, the rejection does
    not reach the caller.  After a failed probe the re-entered invocation
    rejects its own promise with {id, url, status, error} and the promise
    of the call stays pending; after a request that failed without a
    response under defer, the retried invocation rejects its own promise,
    under the next id, and the promise of the call stays pending. *)
Theorem application_error_after_a_retry_is_not_delivered
    (lodash_size : omap json -> Z) (fuel : nat) (this : DC.t)
    (tc : list DC.field_update) (a : string) (n : Z) (rqid : option Z)
    (next : Z) (p : probe_outcome) (e e' : jserror)
    (ps : list probe_outcome) (fs : list fetch_outcome)
    (status : Z) (data : json) :
  rsp_ok status = false ->
  drawn_id rqid next <> 0 ->
  probe_error p = Some e ->
  (0 <? Sondra.status_or_zero e') = false ->
  let m := DC.merge this tc in
  let url := DC.url m in
  let id := drawn_id rqid next in
  let counter := drawn_counter rqid next in
  let refused := Response status (inl data) in
  let rejection (i : Z) := Sondra.mkRejection i url status (VJson data) in
  let attempt (i k : Z) (policy : string) :=
    [Sondra.EEnter i k policy; Sondra.EPing (Sondra.ping_url this);
     Sondra.EFetch url (snd (Sondra.robust_request lodash_size m));
     Sondra.EReject (rejection i)] in
  Sondra.robustCall lodash_size (S fuel) this tc a n rqid
    (Sondra.mkWorld next (PingSettled :: ps) (refused :: fs))
  = Some (Sondra.mkRun (Sondra.Rejected (rejection id)) (attempt id n a)
            (Sondra.mkWorld counter ps fs))
  /\ Sondra.robustCall lodash_size (S (S fuel)) this tc a n rqid
       (Sondra.mkWorld next (p :: PingSettled :: ps) (refused :: fs))
     = Some (Sondra.mkRun Sondra.Pending
               ((Sondra.EEnter id n a :: ping_events this p)
                ++ [Sondra.EObserver id url e;
                    Sondra.EDelay (refetchDelay (DC.robust this))]
                ++ attempt id n a)
               (Sondra.mkWorld counter ps fs))
  /\ Sondra.robustCall lodash_size (S (S fuel)) this tc "defer" n rqid
       (Sondra.mkWorld next (PingSettled :: PingSettled :: ps)
                       (NoResponse e' :: refused :: fs))
     = Some (Sondra.mkRun Sondra.Pending
               (failed_attempt lodash_size this tc e' id n
                ++ attempt counter (n + 1)
                     (if n <? maxTries (DC.robust m)
                      then "defer" else "fail"))
               (Sondra.mkWorld (counter + 1) ps fs)).
Proof.
  intros Hok Hid Hp He m url id counter refused rejection attempt.
  split; [apply refused_request_step; exact Hok|]. split.
  - rewrite (failed_probe_step lodash_size (S fuel) this tc a n rqid next p
               (PingSettled :: ps) (refused :: fs) e Hp).
    fold id counter. subst refused.
    rewrite (refused_request_step lodash_size fuel this tc a n (Some id)
               counter ps fs status data Hok).
    destruct (drawn_kept id counter Hid) as [Ei Ec]. rewrite Ei, Ec.
    cbn [Sondra.promise Sondra.trace Sondra.after Sondra.prepend].
    subst attempt rejection url m. cbn beta.
    destruct p; reflexivity.
  - rewrite failed_request_step. unfold Sondra.on_error. rewrite He.
    cbn [String.eqb Ascii.eqb Bool.eqb]. fold id counter. subst refused.
    rewrite (refused_request_step lodash_size fuel this tc _ (n + 1) None
               counter ps fs status data Hok).
    cbn [Sondra.unlinked Sondra.prepend Sondra.promise Sondra.trace
         Sondra.after drawn_id drawn_counter].
    reflexivity.
Qed.

Lemma application_error_after_a_retry_is_not_delivered_witness :
  rsp_ok 403 = false
  /\ drawn_id None 1 <> 0
  /\ probe_error Offline = Some not_online
  /\ (0 <? Sondra.status_or_zero failed_to_fetch) = false
  /\ Sondra.robustCall count_entries 1 login credentials "defer" 0 None
       (Sondra.mkWorld 1 [PingSettled] [Response 403 (inl (JStr "denied"))])
     = Some (Sondra.mkRun
               (Sondra.Rejected
                  (Sondra.mkRejection 1 (DC.url login) 403
                                      (VJson (JStr "denied"))))
               [Sondra.EEnter 1 0 "defer";
                Sondra.EPing (Sondra.ping_url login);
                Sondra.EFetch (DC.url login)
                  (snd (Sondra.robust_request count_entries
                          (DC.merge login credentials)));
                Sondra.EReject
                  (Sondra.mkRejection 1 (DC.url login) 403
                                      (VJson (JStr "denied")))]
               (Sondra.mkWorld 2 [] []))
  /\ Sondra.robustCall count_entries 2 login credentials "defer" 0 None
       (Sondra.mkWorld 1 [Offline; PingSettled]
                       [Response 403 (inl (JStr "denied"))])
     = Some (Sondra.mkRun Sondra.Pending
               [Sondra.EEnter 1 0 "defer";
                Sondra.EObserver 1 (DC.url login) not_online;
                Sondra.EDelay 1500;
                Sondra.EEnter 1 0 "defer";
                Sondra.EPing (Sondra.ping_url login);
                Sondra.EFetch (DC.url login)
                  (snd (Sondra.robust_request count_entries
                          (DC.merge login credentials)));
                Sondra.EReject
                  (Sondra.mkRejection 1 (DC.url login) 403
                                      (VJson (JStr "denied")))]
               (Sondra.mkWorld 2 [] []))
  /\ Sondra.robustCall count_entries 2 login credentials "defer" 0 None
       (Sondra.mkWorld 1 [PingSettled; PingSettled]
                       [NoResponse failed_to_fetch;
                        Response 403 (inl (JStr "denied"))])
     = Some (Sondra.mkRun Sondra.Pending
               [Sondra.EEnter 1 0 "defer";
                Sondra.EPing (Sondra.ping_url login);
                Sondra.EFetch (DC.url login)
                  (snd (Sondra.robust_request count_entries
                          (DC.merge login credentials)));
                Sondra.EObserver 1 (DC.url login) failed_to_fetch;
                Sondra.EDelay 1500;
                Sondra.EEnter 2 1 "defer";
                Sondra.EPing (Sondra.ping_url login);
                Sondra.EFetch (DC.url login)
                  (snd (Sondra.robust_request count_entries
                          (DC.merge login credentials)));
                Sondra.EReject
                  (Sondra.mkRejection 2 (DC.url login) 403
                                      (VJson (JStr "denied")))]
               (Sondra.mkWorld 3 [] [])).
Proof.
  split; [reflexivity|]. split; [unfold drawn_id; lia|].
  split; [reflexivity|]. split; [reflexivity|].
  apply (application_error_after_a_retry_is_not_delivered count_entries 0
           login credentials "defer" 0 None 1 Offline not_online
           failed_to_fetch [] [] 403 (JStr "denied"));
    [reflexivity | unfold drawn_id; lia | reflexivity | reflexivity].
Defined.

Lemma attempts_cons e tr :
  attempts (e :: tr) = ((if is_fetch e then 1 else 0) + attempts tr)%nat.
Proof. unfold attempts. cbn [filter]. destruct (is_fetch e); reflexivity. Qed.

Lemma observer_calls_cons e tr :
  observer_calls (e :: tr)
  = ((if is_observer e then 1 else 0) + observer_calls tr)%nat.
Proof.
  unfold observer_calls. cbn [filter]. destruct (is_observer e); reflexivity.
Qed.

Lemma counts_of_probe_prefix this p id n a url e d :
  let prefix :=
    Sondra.EEnter id n a :: ping_events this p
      ++ [Sondra.EObserver id url e; Sondra.EDelay d] in
  attempts prefix = 0%nat
  /\ observer_calls prefix = 1%nat
  /\ filter is_enter prefix = [Sondra.EEnter id n a].
Proof. destruct p; repeat split. Qed.

(** X19. Probe failures are not bounded by maxTries and never touch the
    attempt index: while the probe keeps failing, whatever the number of
    failures, the call makes no request, calls the observer once per
    failure, and every nested invocation runs under the same id, index and
    policy; the promise stays pending and one id at most was drawn. *)
Theorem failed_probes_never_use_up_attempts
    (lodash_size : omap json -> Z) (this : DC.t)
    (tc : list DC.field_update) (a : string) (n : Z)
    (fails : list probe_outcome) :
  forall (extra : nat) (rqid : option Z) (next : Z)
         (fs : list fetch_outcome),
    forallb is_failed_probe fails = true ->
    drawn_id rqid next <> 0 ->
    exists r,
      Sondra.robustCall lodash_size (S (List.length fails) + extra) this tc
        a n rqid (Sondra.mkWorld next fails fs) = Some r
      /\ Sondra.promise r = Sondra.Pending
      /\ attempts (Sondra.trace r) = 0%nat
      /\ observer_calls (Sondra.trace r) = List.length fails
      /\ filter is_enter (Sondra.trace r)
         = repeat (Sondra.EEnter (drawn_id rqid next) n a)
                  (S (List.length fails))
      /\ Sondra.after r = Sondra.mkWorld (drawn_counter rqid next) [] fs.
Proof.
  induction fails as [|p fails IH]; intros extra rqid next fs Hf Hid.
  - cbn [List.length Nat.add Sondra.robustCall]. unfold Sondra.invocation.
    rewrite assign_id_drawn. eexists. split; [reflexivity|].
    repeat split.
  - cbn [forallb] in Hf. apply andb_prop in Hf as [Hp Hf].
    assert (He : exists e, probe_error p = Some e)
      by (destruct p; [eexists; reflexivity | discriminate
                       | eexists; reflexivity]).
    destruct He as [e He].
    cbn [List.length Nat.add].
    rewrite (failed_probe_step lodash_size _ this tc a n rqid next p fails
               fs e He).
    destruct (drawn_kept (drawn_id rqid next) (drawn_counter rqid next) Hid)
      as [Kid Kc].
    destruct (IH extra (Some (drawn_id rqid next)) (drawn_counter rqid next)
                fs Hf) as (r & E & Hpr & Hat & Hob & Hen & Haf);
      [now rewrite Kid|].
    rewrite Kid, Kc in *. cbn [Nat.add] in E. rewrite E, Hpr.
    destruct (counts_of_probe_prefix this p (drawn_id rqid next) n a
                (DC.url (DC.merge this tc)) e
                (refetchDelay (DC.robust this))) as (A0 & O0 & E0).
    eexists. split; [reflexivity|].
    cbn [Sondra.promise Sondra.trace Sondra.after].
    split; [reflexivity|].
    rewrite attempts_app, observer_calls_app, filter_app, A0, O0, E0, Hat,
      Hob, Hen.
    repeat split; [exact Haf].
Qed.

Lemma failed_probes_never_use_up_attempts_witness :
  forallb is_failed_probe [Offline; PingFailed failed_to_fetch; Offline]
  = true
  /\ drawn_id None 1 <> 0
  /\ exists r,
      Sondra.robustCall count_entries
        (S (List.length [Offline; PingFailed failed_to_fetch; Offline]) + 0)
        login credentials "defer" 0 None
        (Sondra.mkWorld 1 [Offline; PingFailed failed_to_fetch; Offline] [])
      = Some r
      /\ Sondra.promise r = Sondra.Pending
      /\ attempts (Sondra.trace r) = 0%nat
      /\ observer_calls (Sondra.trace r)
         = List.length [Offline; PingFailed failed_to_fetch; Offline]
      /\ filter is_enter (Sondra.trace r)
         = repeat (Sondra.EEnter (drawn_id None 1) 0 "defer")
             (S (List.length [Offline; PingFailed failed_to_fetch; Offline]))
      /\ Sondra.after r = Sondra.mkWorld (drawn_counter None 1) [] [].
Proof.
  split; [reflexivity|]. split; [vm_compute; discriminate|].
  apply (failed_probes_never_use_up_attempts count_entries login credentials
           "defer" 0 [Offline; PingFailed failed_to_fetch; Offline] 0 None 1
           []).
  - reflexivity.
  - vm_compute; discriminate.
Defined.

Lemma answered_step lodash_size retry this tc a n id next ps sd fs :
  rsp_ok (fst sd) = true ->
  Sondra.send lodash_size retry this tc a n id
    (Sondra.mkWorld next ps (answered sd :: fs))
  = Some (Sondra.mkRun
            (Sondra.Resolved (Sondra.ResolvedWith id (snd sd)))
            [Sondra.EFetch (DC.url (DC.merge this tc))
               (snd (Sondra.robust_request lodash_size (DC.merge this tc)));
             Sondra.EResolve (Sondra.ResolvedWith id (snd sd))]
            (Sondra.mkWorld next ps fs)).
Proof.
  intros H. unfold Sondra.send, answered.
  cbn [Sondra.fetches Sondra.nextDeferredRequestId Sondra.probes].
  rewrite H. reflexivity.
Qed.

(** X18. A call that recovers from failed probes sends its request once
    per invocation on the way back: after k failed probes and one that
    succeeds, with every request answered by a 2xx response, k + 1 physical
    requests are made (a POST is repeated k + 1 times), the observer is
    called k times, and the call resolves under its own id with the data of
    the last response. *)
Theorem recovery_from_failed_probes_repeats_the_request
    (lodash_size : omap json -> Z) (this : DC.t)
    (tc : list DC.field_update) (a : string) (n : Z)
    (fails : list probe_outcome) :
  forall (extra : nat) (rqid : option Z) (next : Z)
         (ps : list probe_outcome) (fs : list fetch_outcome)
         (oks : list (Z * json)) (last_ok : Z * json),
    forallb is_failed_probe fails = true ->
    forallb (fun sd => rsp_ok (fst sd)) (oks ++ [last_ok]) = true ->
    List.length oks = List.length fails ->
    drawn_id rqid next <> 0 ->
    exists r,
      Sondra.robustCall lodash_size (S (List.length fails) + extra) this tc
        a n rqid
        (Sondra.mkWorld next (fails ++ PingSettled :: ps)
                        (map answered (oks ++ [last_ok]) ++ fs))
      = Some r
      /\ Sondra.promise r
         = Sondra.Resolved
             (Sondra.ResolvedWith (drawn_id rqid next) (snd last_ok))
      /\ attempts (Sondra.trace r) = S (List.length fails)
      /\ observer_calls (Sondra.trace r) = List.length fails
      /\ Sondra.after r = Sondra.mkWorld (drawn_counter rqid next) ps fs.
Proof.
  induction fails as [|p fails IH];
    intros extra rqid next ps fs oks last_ok Hf Hok Hlen Hid.
  - destruct oks; [|discriminate Hlen].
    cbn [app map forallb] in *. apply andb_prop in Hok as [Hok _].
    cbn [List.length Nat.add Sondra.robustCall]. unfold Sondra.invocation.
    rewrite assign_id_drawn. unfold Sondra.executor.
    cbn [Sondra.probes Sondra.fetches Sondra.nextDeferredRequestId].
    rewrite (answered_step lodash_size _ this tc a n _ _ ps last_ok fs Hok).
    eexists. split; [reflexivity|]. repeat split.
  - cbn [forallb] in Hf. apply andb_prop in Hf as [Hp Hf].
    assert (He : exists e, probe_error p = Some e)
      by (destruct p; [eexists; reflexivity | discriminate
                       | eexists; reflexivity]).
    destruct He as [e He].
    (* the responses: all but the last go to the nested call *)
    destruct (exists_last (l := oks)) as (oks' & x & ->);
      [intros ->; discriminate Hlen|].
    rewrite length_app, Nat.add_comm in Hlen. cbn in Hlen.
    apply Nat.succ_inj in Hlen.
    rewrite forallb_app in Hok. apply andb_prop in Hok as [Hok Hlast].
    cbn [forallb] in Hlast. apply andb_prop in Hlast as [Hlast _].
    rewrite map_app, <- app_assoc. cbn [map app].
    cbn [List.length Nat.add].
    change ((p :: fails) ++ PingSettled :: ps)
      with (p :: (fails ++ PingSettled :: ps)).
    rewrite (failed_probe_step lodash_size _ this tc a n rqid next p _ _ e He).
    destruct (drawn_kept (drawn_id rqid next) (drawn_counter rqid next) Hid)
      as [Kid Kc].
    destruct (IH extra (Some (drawn_id rqid next)) (drawn_counter rqid next)
                ps (answered last_ok :: fs) oks' x Hf Hok Hlen)
      as (r & E & Hpr & Hat & Hob & Haf); [now rewrite Kid|].
    rewrite Kid, Kc in *. cbn [Nat.add] in E. rewrite E, Hpr, Haf.
    rewrite (answered_step lodash_size _ this tc a n _ _ ps last_ok fs Hlast).
    destruct (counts_of_probe_prefix this p (drawn_id rqid next) n a
                (DC.url (DC.merge this tc)) e
                (refetchDelay (DC.robust this))) as (A0 & O0 & _).
    eexists. split; [reflexivity|].
    cbn [Sondra.promise Sondra.trace Sondra.after].
    split; [reflexivity|].
    rewrite !attempts_app, !observer_calls_app, A0, O0, Hat, Hob.
    repeat split; cbn; lia.
Qed.

Lemma recovery_from_failed_probes_repeats_the_request_witness :
  forallb is_failed_probe [Offline; Offline] = true
  /\ forallb (fun sd => rsp_ok (fst sd))
             ([(200, JStr "first"); (201, JStr "second")]
                ++ [(200, JStr "third")]) = true
  /\ List.length [(200, JStr "first"); (201, JStr "second")]
     = List.length [Offline; Offline]
  /\ drawn_id None 1 <> 0
  /\ exists r,
      Sondra.robustCall count_entries
        (S (List.length [Offline; Offline]) + 0) login credentials "defer" 0
        None
        (Sondra.mkWorld 1 ([Offline; Offline] ++ PingSettled :: [])
           (map answered ([(200, JStr "first"); (201, JStr "second")]
                            ++ [(200, JStr "third")]) ++ []))
      = Some r
      /\ Sondra.promise r
         = Sondra.Resolved
             (Sondra.ResolvedWith (drawn_id None 1)
                                  (snd (200, JStr "third")))
      /\ attempts (Sondra.trace r) = S (List.length [Offline; Offline])
      /\ observer_calls (Sondra.trace r) = List.length [Offline; Offline]
      /\ Sondra.after r = Sondra.mkWorld (drawn_counter None 1) [] [].
Proof.
  split; [reflexivity|]. split; [reflexivity|]. split; [reflexivity|].
  split; [vm_compute; discriminate|].
  apply (recovery_from_failed_probes_repeats_the_request count_entries login
           credentials "defer" 0 [Offline; Offline] 0 None 1 [] []
           [(200, JStr "first"); (201, JStr "second")] (200, JStr "third")).
  - reflexivity.
  - reflexivity.
  - reflexivity.
  - vm_compute; discriminate.
Defined.

(** ** The resilient call: every attempt sends the same request *)

Section Regular.
Variable lodash_size : omap json -> Z.
Variable this : DC.t.
Variable tc : list DC.field_update.

Definition regular_run (r : option Sondra.run) : Prop :=
  forall res, r = Some res ->
              Forall (regular_event lodash_size this tc) (Sondra.trace res).

Lemma regular_prepend evs r :
  Forall (regular_event lodash_size this tc) evs ->
  regular_run r -> regular_run (Sondra.prepend evs r).
Proof.
  intros Hevs Hr res E. destruct r as [r|]; [|discriminate].
  cbn in E. inversion E; subst. cbn. apply Forall_app. split; [exact Hevs|].
  now apply Hr.
Qed.

Lemma regular_unlinked r : regular_run r -> regular_run (Sondra.unlinked r).
Proof.
  intros Hr res E. destruct r as [r|]; [|discriminate].
  cbn in E. inversion E; subst. cbn. now apply Hr.
Qed.

Ltac regular_events :=
  repeat (apply Forall_cons || apply Forall_nil);
  try (cbn; first [reflexivity | split; reflexivity
                  | left; reflexivity | right; reflexivity | exact I]).

Lemma regular_some p tr w :
  Forall (regular_event lodash_size this tc) tr ->
  regular_run (Some (Sondra.mkRun p tr w)).
Proof. intros H res E. inversion E; subst. exact H. Qed.

Section WithRetry.
Variable retry : string -> Z -> option Z -> Sondra.world -> option Sondra.run.
Hypothesis retry_regular : forall a n r w, regular_run (retry a n r w).

Lemma on_error_regular a n id e w :
  regular_run (Sondra.on_error retry this tc a n id e w).
Proof.
  unfold Sondra.on_error.
  destruct (0 <? Sondra.status_or_zero e);
    [apply regular_some; regular_events|].
  destruct (a =? "defer")%string.
  - apply regular_prepend; [regular_events|].
    apply regular_unlinked, retry_regular.
  - destruct (a =? "fail")%string;
      [apply regular_some; regular_events|].
    destruct (a =? "ignore")%string; apply regular_some; regular_events.
Qed.

Lemma send_regular a n id w :
  regular_run (Sondra.send lodash_size retry this tc a n id w).
Proof.
  unfold Sondra.send.
  destruct (Sondra.fetches w) as [|o rest].
  - apply regular_some. regular_events.
  - apply regular_prepend; [regular_events|].
    destruct o as [status [data|e]|e]; try apply on_error_regular.
    destruct (rsp_ok status); apply regular_some; regular_events.
Qed.

Lemma reprobe_regular a n id e w :
  regular_run (Sondra.reprobe lodash_size retry this tc a n id e w).
Proof.
  unfold Sondra.reprobe.
  apply regular_prepend; [regular_events|].
  pose proof (retry_regular a n (Some id) w) as Hr.
  destruct (retry a n (Some id) w) as [r|]; [|intros res E; discriminate E].
  specialize (Hr r eq_refl).
  destruct (Sondra.promise r).
  - now apply regular_some.
  - apply regular_prepend; [exact Hr | apply send_regular].
  - now apply regular_some.
Qed.

Lemma invocation_regular a n rqid w :
  regular_run (Sondra.invocation lodash_size retry this tc a n rqid w).
Proof.
  unfold Sondra.invocation.
  destruct (Sondra.assign_id rqid w) as [id w'].
  apply regular_prepend; [regular_events|].
  unfold Sondra.executor.
  destruct (Sondra.probes w') as [|p rest];
    [apply regular_some; regular_events|].
  destruct p as [| |e].
  - apply reprobe_regular.
  - apply regular_prepend; [regular_events | apply send_regular].
  - apply regular_prepend; [regular_events | apply reprobe_regular].
Qed.
End WithRetry.

Lemma robustCall_regular fuel :
  forall a n rqid w,
    regular_run (Sondra.robustCall lodash_size fuel this tc a n rqid w).
Proof.
  induction fuel as [|fuel IH]; intros a n rqid w.
  - intros res E. discriminate E.
  - cbn [Sondra.robustCall]. apply invocation_regular. exact IH.
Qed.
End Regular.

(** X20. Whatever the oracle answers, every physical attempt of a resilient
    call, retries included, sends the same request: the URL stored in the
    merged context with the options built from it.  Every ping goes to the
    ping URL of the context, the observer and every rejection get that same
    stored URL, and the only delays are the retry delay of the context
    (after a failed probe) and the one of the merged context (after a failed
    request). *)
Theorem every_attempt_sends_the_same_request
    (lodash_size : omap json -> Z) (fuel : nat) (this : DC.t)
    (tc : list DC.field_update) (a : string) (n : Z) (rqid : option Z)
    (w : Sondra.world) :
  (List.length (Sondra.probes w) < fuel)%nat ->
  exists r,
    Sondra.robustCall lodash_size fuel this tc a n rqid w = Some r
    /\ Forall (regular_event lodash_size this tc) (Sondra.trace r).
Proof.
  intros Hw.
  destruct (robustCall_answers lodash_size fuel this tc a n rqid w Hw)
    as (r & E & _).
  exists r. split; [exact E|].
  exact (robustCall_regular lodash_size this tc fuel a n rqid w r E).
Qed.

Lemma every_attempt_sends_the_same_request_witness :
  (List.length
     (Sondra.probes
        (Sondra.mkWorld 1 [Offline; PingSettled; PingSettled]
           [NoResponse failed_to_fetch; Response 200 (inl (JStr "token"))]))
   < 4)%nat
  /\ exists r,
      Sondra.robustCall count_entries 4 login credentials "defer" 0 None
        (Sondra.mkWorld 1 [Offline; PingSettled; PingSettled]
           [NoResponse failed_to_fetch; Response 200 (inl (JStr "token"))])
      = Some r
      /\ Forall (regular_event count_entries login credentials)
                (Sondra.trace r).
Proof.
  split; [simpl; lia|].
  apply (every_attempt_sends_the_same_request count_entries 4 login
           credentials "defer" 0 None
           (Sondra.mkWorld 1 [Offline; PingSettled; PingSettled]
              [NoResponse failed_to_fetch;
               Response 200 (inl (JStr "token"))])).
  simpl; lia.
Defined.
